(** * leapclock: a leap-second aware console clock

    Shallow embedding of [src/leapclock.c] and the properties of its
    clock-state engine: the TAI-UTC offset computation, the detection of
    clock steps, the leap-second slew and the assembly of the three
    displayed instants.

    Conventions of the embedding.
    - [time_t], [long] and [int] values are integers of [Z].  Signed
      overflow is undefined in C and is not given a meaning here; the
      narrowing conversions from [long] to [int] that the program performs
      are written out with [to_int].
    - A finite [double] value is the rational of [Q] it denotes.  The slew
      arithmetic is IEEE binary64: every operation is the exact one followed
      by the rounding [rnd] to the nearest binary64 value, ties to even, as
      on a machine that evaluates [double] expressions in binary64 without
      fused operations.  The step test compares the exact difference of the
      two samples.  Infinities, NaN and overflow are outside the model: a
      division by zero, which gives one of them in C, is 0 here, and the
      properties of the slew assume the positive tick the kernel reports.
      Module [Binary64] evaluates the same expressions with the primitive
      binary64 numbers of Rocq.
    - The C library ([gmtime], [localtime], [mktime]) is an interface,
      class [Libc]; the value of the [TZ] environment variable, which
      selects the calendar rule, is part of the state of the world.
    - The terminal and the kernel are modelled by a trace of calls
      ([event]) and by the answers they give in each iteration ([poll]). *)

From Stdlib Require Import ZArith QArith Qround Qpower Lia Lqa String List Bool.
From Stdlib Require Import Finite.
From Stdlib Require Import Floats Uint63.
From Equations Require Import Equations.
Import ListNotations.
Open Scope Z_scope.

(** ** C data *)

Record timeval := mk_timeval { tv_sec : Z; tv_usec : Z }.

(** The fields of [struct timex] that [main] reads. *)
Record timex_t := mk_timex {
  timex_time : timeval;
  timex_status : Z;
  timex_tick : Z }.

Record tm := mk_tm {
  tm_sec : Z; tm_min : Z; tm_hour : Z;
  tm_mday : Z; tm_mon : Z; tm_year : Z }.

(** Constants of <sys/timex.h> and <ncurses.h>. *)
Definition STA_NANO : Z := 0x2000.
Definition ERR : Z := -1.
Definition KEY_RESIZE : Z := 410.

Definition CLOCK_COLS : Z := 35.
Definition CLOCK_LINES : Z := 7.

(** Conversion of a [long] to [int] (two's complement, 32 bits). *)
Definition to_int (z : Z) : Z := (z + 2 ^ 31) mod 2 ^ 32 - 2 ^ 31.

(** Conversion of a [double] to [long]: the fraction is discarded. *)
Definition Qtrunc (x : Q) : Z := Qnum x ÷ Zpos (Qden x).

Definition Qlt_bool (x y : Q) : bool := negb (Qle_bool y x).

(** ** Binary64 arithmetic

    A finite [double] is the rational number it denotes.  [rnd] rounds a
    rational to the nearest binary64 value, ties to even: 53 significant
    bits, and the fixed quantum 2^-1074 of the subnormal numbers below
    2^-1022.  An operation of the program on [double] values is the exact
    operation followed by [rnd], which is how IEEE 754 defines it. *)

(** The floor of the binary logarithm of a positive rational. *)
Definition ilog2 (x : Q) : Z :=
  let k := Z.log2 (Qnum x) - Z.log2 (Zpos (Qden x)) in
  if Qle_bool (2 ^ k) x then k else k - 1.

(** The nearest integer, the even one of two that are equally near. *)
Definition round_half_even (x : Q) : Z :=
  let f := Qfloor x in
  match (x - inject_Z f ?= 1 # 2)%Q with
  | Lt => f
  | Eq => if Z.even f then f else f + 1
  | Gt => f + 1
  end.

(** The exponent of the last of the 53 bits of a positive rational. *)
Definition ulp_exp (x : Q) : Z := Z.max (ilog2 x - 52) (-1074).

Definition rnd_pos (x : Q) : Q :=
  (inject_Z (round_half_even (x / 2 ^ ulp_exp x)) * 2 ^ ulp_exp x)%Q.

Definition rnd (x : Q) : Q :=
  match (x ?= 0)%Q with
  | Eq => 0%Q
  | Gt => rnd_pos x
  | Lt => (- rnd_pos (- x))%Q
  end.

(** [x + y], [x - y], [x * y] and [x / y] on [double] values, and the
    conversion of a [long] (or an [int]) to [double]. *)
Definition fadd (x y : Q) : Q := rnd (x + y).
Definition fsub (x y : Q) : Q := rnd (x - y).
Definition fmul (x y : Q) : Q := rnd (x * y).
Definition fdiv (x y : Q) : Q := rnd (x / y).
Definition double_of_long (z : Z) : Q := rnd (inject_Z z).

(** ** The C library and the world *)

Class Libc := {
  gmtime : option string -> Z -> tm;
  localtime : option string -> Z -> tm;
  mktime : option string -> tm -> Z }.

(** Calls that reach the terminal or the kernel, in program order.
    [Initscr] stands for the five calls that open the screen ([initscr],
    [cbreak], [nodelay], [noecho], [curs_set]), [PrintBorder] for the
    [mvaddch] calls of [print_border], [PrintfDiff] for the diagnostic
    [printf] of debug mode, and [Mvprintw] and [PrintfTime] for the line
    [print_time] writes to the screen or, in debug mode, to stdout. *)
Inductive event :=
| Initscr
| Getch
| Erase
| PrintBorder (line col : Z)
| Adjtimex
| PrintfDiff (diff : Q) (step slew leap : bool)
| Mvprintw (line col : Z) (label : option string) (t : tm) (dsecs : Z)
| PrintfTime (label : option string) (t : tm) (dsecs : Z)
| Refresh
| Usleep (usec : Z)
| Endwin.

Record world := mk_world { TZ : option string; screen : list event }.

(** What the terminal and the kernel answer during one iteration. *)
Record poll := mk_poll {
  ch : Z;
  COLS : Z;
  LINES : Z;
  adjtimex_ret : Z;
  timex : timex_t }.

(** A computation either yields a value or leaves [main] with a status. *)
Inductive result (A : Type) :=
| Val (a : A)
| Return (status : Z).
Arguments Val {A} a.
Arguments Return {A} status.

Definition M (A : Type) : Type := world -> result A * world.

Definition ret {A} (a : A) : M A := fun w => (Val a, w).

Definition bind {A B} (c : M A) (k : A -> M B) : M B :=
  fun w => match c w with
           | (Val a, w') => k a w'
           | (Return s, w') => (Return s, w')
           end.

Definition return_from_main {A} (status : Z) : M A := fun w => (Return status, w).

Definition emit (e : event) : M unit :=
  fun w => (Val tt, mk_world (TZ w) (screen w ++ [e])).

Definition setenv_TZ (v : string) : M unit :=
  fun w => (Val tt, mk_world (Some v) (screen w)).

Definition unsetenv_TZ : M unit :=
  fun w => (Val tt, mk_world None (screen w)).

Definition when (b : bool) (c : M unit) : M unit := if b then c else ret tt.

Declare Scope monad_scope.
Delimit Scope monad_scope with monad.
Notation "x <- c ;; k" := (bind c (fun x => k))
  (at level 61, c at next level, right associativity) : monad_scope.
Notation "c ;; k" := (bind c (fun _ => k))
  (at level 61, right associativity) : monad_scope.
Open Scope monad_scope.

Section Program.
Context {libc : Libc}.

Definition call_gmtime (t : Z) : M tm := fun w => (Val (gmtime (TZ w) t), w).
Definition call_localtime (t : Z) : M tm := fun w => (Val (localtime (TZ w) t), w).
Definition call_mktime (t : tm) : M Z := fun w => (Val (mktime (TZ w) t), w).

(** ** get_tai_offset *)

Definition get_tai_offset (utc : Z) : M Z :=
  setenv_TZ "posix/UTC" ;;
  tm <- call_gmtime utc ;;
  setenv_TZ "right/UTC" ;;
  t <- call_mktime tm ;;
  let offset := to_int (t - utc + 10) in
  unsetenv_TZ ;;
  ret offset.

(** ** print_time *)

Definition print_time (debug : bool) (line col : Z) (label : option string)
    (tv : timeval) (local leap : bool) : M unit :=
  let dsecs := tv_usec tv ÷ 100000 in
  let t := tv_sec tv in
  tm <- (if local then call_localtime t else call_gmtime t) ;;
  let tm := if leap && (tm_sec tm =? 59)
            then mk_tm (tm_sec tm + 1) (tm_min tm) (tm_hour tm)
                       (tm_mday tm) (tm_mon tm) (tm_year tm)
            else tm in
  if negb debug then emit (Mvprintw line col label tm dsecs)
  else emit (PrintfTime label tm dsecs).

End Program.

(** ** diff_tv *)

Definition diff_tv (tv1 tv2 : timeval) : Q :=
  inject_Z (tv_sec tv1 - tv_sec tv2)
  + inject_Z (tv_usec tv1 - tv_usec tv2) / 1e6.

(** ** The variables of main that live across iterations *)

Record locals := mk_locals {
  tai_offset : Z;
  last_tai_offset : Z;
  leap : bool;
  step : bool;
  slew : bool;
  tick : Z;
  slew_tick : Z;
  last_tv_system : timeval }.

Definition init_locals : locals :=
  mk_locals 0 0 false false false 0 0 (mk_timeval 0 0).

(** The three instants handed to [print_time] in one iteration. *)
Record frame := mk_frame {
  tv_system : timeval;
  tv_utc : timeval;
  tv_tai : timeval }.

(** ** Step detection (the test on [diff] after [diff_tv]) *)

Inductive branch := BACKWARD_STEP | DISCONTINUITY | NORMAL.

Definition classify (diff : Q) : branch :=
  if Qlt_bool (-1.0) diff && Qlt_bool diff (-0.8) then BACKWARD_STEP
  else if Qlt_bool 1.0 diff || Qlt_bool diff (-1.0) then DISCONTINUITY
  else NORMAL.

Definition detect_step (diff : Q) (l : locals) : locals :=
  match classify diff with
  | BACKWARD_STEP =>
      mk_locals (tai_offset l) (last_tai_offset l) (leap l) true false
                (tick l) (slew_tick l) (last_tv_system l)
  | DISCONTINUITY =>
      mk_locals (tai_offset l) (last_tai_offset l) false false false
                (tick l) (slew_tick l) (last_tv_system l)
  | NORMAL => l
  end.

(** ** Recomputation of the TAI offset *)

Definition recompute_due (sample : timeval) (l : locals) : bool :=
  step l || negb (tv_sec (last_tv_system l) =? tv_sec sample).

Definition recompute {libc : Libc} (sample : timeval) (l : locals) : M locals :=
  if recompute_due sample l then
    offset <- get_tai_offset (tv_sec sample + Z.b2z (step l)) ;;
    ret (mk_locals offset offset
           (negb (last_tai_offset l =? 0) && (last_tai_offset l <? offset))
           false (slew l) (tick l) (slew_tick l) (last_tv_system l))
  else ret l.

(** ** The slew *)

(** [while (tv_utc.tv_usec < 0) { tv_utc.tv_sec--; tv_utc.tv_usec += 1000000; }] *)
Equations? borrow (tv : timeval) : timeval by wf (Z.to_nat (- tv_usec tv)) lt :=
borrow tv with Z_lt_dec (tv_usec tv) 0 := {
  | left _ => borrow (mk_timeval (tv_sec tv - 1) (tv_usec tv + 1000000))
  | right _ => tv }.
Proof. simpl. lia. Qed.

(** [if (leap && tv_utc.tv_sec % 86400 == 0) slew = 1;] *)
Definition arm (utc : timeval) (l : locals) : locals :=
  if leap l && (Z.rem (tv_sec utc) 86400 =? 0)
  then mk_locals (tai_offset l) (last_tai_offset l) (leap l) (step l) true
                 (tick l) (slew_tick l) (last_tv_system l)
  else l.

(** [slew_tick] after [if (!slew_tick || slew_tick > timex.tick)]. *)
Definition base_tick (kernel_tick : Z) (l : locals) : Z :=
  if (slew_tick l =? 0) || (kernel_tick <? slew_tick l)
  then to_int kernel_tick else slew_tick l.

(** [1.0 - (double)(tick - slew_tick) / slew_tick
           * (tv_utc.tv_sec % 86400 + tv_utc.tv_usec / 1e6)]
    in binary64, where [sod] is [tv_utc.tv_sec % 86400] and [usec] is
    [tv_utc.tv_usec]. *)
Definition diff64 (tick slew_tick sod usec : Z) : Q :=
  fsub 1.0
    (fmul (fdiv (double_of_long (tick - slew_tick)) (double_of_long slew_tick))
          (fadd (double_of_long sod) (fdiv (double_of_long usec) 1e6))).

(** [tv_utc.tv_usec] after [tv_utc.tv_usec -= diff * 1e6]: the difference
    is taken in [double] and converted back to [long]. *)
Definition slewed_usec (diff : Q) (usec : Z) : Z :=
  Qtrunc (fsub (double_of_long usec) (fmul diff 1e6)).

(** The value assigned to [diff] in the slew branch, before the exit test. *)
Definition slew_diff (kernel_tick : Z) (utc : timeval) (l : locals) : Q :=
  diff64 (tick l) (base_tick kernel_tick l)
         (Z.rem (tv_sec utc) 86400) (tv_usec utc).

(** [diff <= 0.0 || timex.tick > (tick + slew_tick) / 2] *)
Definition slew_done (kernel_tick : Z) (utc : timeval) (l : locals) : bool :=
  Qle_bool (slew_diff kernel_tick utc l) 0.0
  || ((tick l + base_tick kernel_tick l) ÷ 2 <? kernel_tick).

(** The value of [diff] that is subtracted from the microseconds. *)
Definition correction (kernel_tick : Z) (utc : timeval) (l : locals) : Q :=
  if slew_done kernel_tick utc l then 0.0 else slew_diff kernel_tick utc l.

(** The [if (slew) ... else ...] statement: the new variables and [tv_utc]. *)
Definition slew_block (kernel_tick : Z) (utc : timeval) (l : locals)
  : locals * timeval :=
  if slew l then
    let l' :=
      if slew_done kernel_tick utc l
      then mk_locals (tai_offset l) (last_tai_offset l) (leap l) (step l) false
                     (tick l) 0 (last_tv_system l)
      else mk_locals (tai_offset l) (last_tai_offset l) (leap l) (step l) true
                     (tick l) (base_tick kernel_tick l) (last_tv_system l) in
    let usec := slewed_usec (correction kernel_tick utc l) (tv_usec utc) in
    (l', borrow (mk_timeval (tv_sec utc) usec))
  else
    (mk_locals (tai_offset l) (last_tai_offset l) (leap l) (step l) (slew l)
               (to_int kernel_tick) (slew_tick l) (last_tv_system l),
     utc).

(** ** One iteration of the loop of main *)

(** [tv_system = timex.time; if (timex.status & STA_NANO) tv_system.tv_usec /= 1000;] *)
Definition read_time (tx : timex_t) : timeval :=
  if Z.land (timex_status tx) STA_NANO =? 0 then timex_time tx
  else mk_timeval (tv_sec (timex_time tx)) (tv_usec (timex_time tx) ÷ 1000).

(** From [last_tv_system = tv_system] to [tv_tai.tv_sec += tai_offset]. *)
Definition assemble (kernel_tick : Z) (sample : timeval) (l : locals)
  : locals * frame :=
  let l := mk_locals (tai_offset l) (last_tai_offset l) (leap l) (step l) (slew l)
                     (tick l) (slew_tick l) sample in
  let utc := sample in
  let l := arm utc l in
  let '(l, utc) := slew_block kernel_tick utc l in
  let tai := mk_timeval (tv_sec utc + tai_offset l) (tv_usec utc) in
  (l, mk_frame sample utc tai).

Definition iteration {libc : Libc} (debug : bool) (p : poll) (l : locals)
  : M (locals * frame) :=
  let col := if negb debug then (COLS p - CLOCK_COLS) ÷ 2 else 0 in
  let line := if negb debug then (LINES p - CLOCK_LINES) ÷ 2 else 0 in
  when (negb debug) (emit Erase ;; emit (PrintBorder line col)) ;;
  emit Adjtimex ;;
  if adjtimex_ret p <? 0 then return_from_main 1 else
  let sample := read_time (timex p) in
  let diff := diff_tv sample (last_tv_system l) in
  let l := detect_step diff l in
  when debug (emit (PrintfDiff diff (step l) (slew l) (leap l))) ;;
  l <- recompute sample l ;;
  let '(l, f) := assemble (timex_tick (timex p)) sample l in
  print_time debug (line + 2) (col + 3) (Some "System"%string) (tv_system f) false false ;;
  print_time debug (line + 3) (col + 3) (Some "UTC"%string) (tv_utc f) false (leap l) ;;
  print_time debug (line + 4) (col + 3) (Some "TAI"%string) (tv_tai f) false false ;;
  print_time debug (line + 5) (col + 3) None (tv_utc f) true (leap l) ;;
  when (negb debug) (emit Refresh) ;;
  emit (Usleep 50000) ;;
  ret (l, f).

(** ** main *)

(** How a run stands when the answers of the environment are used up:
    [status] is the exit status, or [None] while the loop is still
    running. *)
Record outcome := mk_outcome {
  status : option Z;
  final : locals;
  frames : list frame;
  after : world }.

Fixpoint loop {libc : Libc} (debug : bool) (answers : list poll) (l : locals)
    (fs : list frame) (w : world) : outcome :=
  match answers with
  | [] => mk_outcome None l fs w
  | p :: rest =>
      let w := snd (emit Getch w) in
      if (ch p =? ERR) || (ch p =? KEY_RESIZE) then
        match iteration debug p l w with
        | (Val (l', f), w') => loop debug rest l' (fs ++ [f]) w'
        | (Return s, w') => mk_outcome (Some s) l fs w'
        end
      else
        let w := if negb debug then snd (emit Endwin w) else w in
        mk_outcome (Some 0) l fs w
  end.

(** [debug = argc > 1 && !strcmp(argv[1], "-d")] *)
Definition debug_mode (argv1 : option string) : bool :=
  match argv1 with
  | Some a => String.eqb a "-d"
  | None => false
  end.

(** [argv1] is the first argument of the command line, if any; [tz] the
    value of TZ in the environment of the process. *)
Definition main {libc : Libc} (argv1 : option string) (tz : option string)
    (answers : list poll) : outcome :=
  let debug := debug_mode argv1 in
  let w := mk_world tz [] in
  let w := if negb debug then snd (emit Initscr w) else w in
  loop debug answers init_locals [] w.

(** ** A reference C library

    A calendar on which the program can be evaluated: the proleptic
    Gregorian calendar without leap seconds for [gmtime], and, under
    [TZ=right/UTC], a [mktime] that counts the leap seconds of a table.
    [leap_days] lists the calendar days (year, month, day) that start right
    after an inserted leap second. *)

Module Calendar.

Definition days_from_civil (y m d : Z) : Z :=
  let y := if m <=? 2 then y - 1 else y in
  let era := y / 400 in
  let yoe := y - era * 400 in
  let doy := (153 * (if 2 <? m then m - 3 else m + 9) + 2) / 5 + d - 1 in
  let doe := yoe * 365 + yoe / 4 - yoe / 100 + doy in
  era * 146097 + doe - 719468.

Definition civil_from_days (z : Z) : Z * Z * Z :=
  let z := z + 719468 in
  let era := z / 146097 in
  let doe := z - era * 146097 in
  let yoe := (doe - doe / 1460 + doe / 36524 - doe / 146096) / 365 in
  let doy := doe - (365 * yoe + yoe / 4 - yoe / 100) in
  let mp := (5 * doy + 2) / 153 in
  let d := doy - (153 * mp + 2) / 5 + 1 in
  let m := if mp <? 10 then mp + 3 else mp - 9 in
  let y := yoe + era * 400 in
  (if m <=? 2 then y + 1 else y, m, d).

Definition posix_gmtime (t : Z) : tm :=
  let '(y, m, d) := civil_from_days (t / 86400) in
  let s := t mod 86400 in
  mk_tm (s mod 60) (s / 60 mod 60) (s / 3600) d (m - 1) (y - 1900).

Definition timegm (t : tm) : Z :=
  days_from_civil (tm_year t + 1900) (tm_mon t + 1) (tm_mday t) * 86400
  + tm_hour t * 3600 + tm_min t * 60 + tm_sec t.

Definition leap_days_2017 : list (Z * Z * Z) :=
  [ (1972, 7, 1); (1973, 1, 1); (1974, 1, 1); (1975, 1, 1); (1976, 1, 1);
    (1977, 1, 1); (1978, 1, 1); (1979, 1, 1); (1980, 1, 1); (1981, 7, 1);
    (1982, 7, 1); (1983, 7, 1); (1985, 7, 1); (1988, 1, 1); (1990, 1, 1);
    (1991, 1, 1); (1992, 7, 1); (1993, 7, 1); (1994, 7, 1); (1996, 1, 1);
    (1997, 7, 1); (1999, 1, 1); (2006, 1, 1); (2009, 1, 1); (2012, 7, 1);
    (2015, 7, 1); (2017, 1, 1) ].

Definition leaps_before (leap_days : list (Z * Z * Z)) (t : Z) : Z :=
  Z.of_nat (List.length
    (List.filter (fun '(y, m, d) => days_from_civil y m d * 86400 <=? t)
                 leap_days)).

Definition right_mktime (leap_days : list (Z * Z * Z)) (t : tm) : Z :=
  timegm t + leaps_before leap_days (timegm t).

Definition libc (leap_days : list (Z * Z * Z)) : Libc :=
  {| gmtime := fun _ t => posix_gmtime t;
     localtime := fun _ t => posix_gmtime t;
     mktime := fun tz t =>
       match tz with
       | Some z => if String.eqb z "right/UTC" then right_mktime leap_days t
                   else timegm t
       | None => timegm t
       end |}.

End Calendar.

(** ** The iteration without the world

    [get_tai_offset] overwrites TZ before it calls the library, so the
    variables and the frame an iteration produces do not depend on the
    world.  [clock_step] is that function; lemma [iteration_clock_step]
    below shows that [iteration] returns it. *)

(** The integer [get_tai_offset] returns. *)
Definition offset_value {libc : Libc} (utc : Z) : Z :=
  to_int (mktime (Some "right/UTC"%string) (gmtime (Some "posix/UTC"%string) utc)
          - utc + 10).

Definition recomputed {libc : Libc} (sample : timeval) (l : locals) : locals :=
  if recompute_due sample l then
    let offset := offset_value (tv_sec sample + Z.b2z (step l)) in
    mk_locals offset offset
      (negb (last_tai_offset l =? 0) && (last_tai_offset l <? offset))
      false (slew l) (tick l) (slew_tick l) (last_tv_system l)
  else l.

Definition clock_step {libc : Libc} (tx : timex_t) (l : locals) : locals * frame :=
  let sample := read_time tx in
  let l := detect_step (diff_tv sample (last_tv_system l)) l in
  let l := recomputed sample l in
  assemble (timex_tick tx) sample l.

(** The variables and the frames after a sequence of answers of the kernel. *)
Fixpoint clock_run {libc : Libc} (txs : list timex_t) (l : locals)
  : locals * list frame :=
  match txs with
  | [] => (l, [])
  | tx :: rest =>
      let '(l', f) := clock_step tx l in
      let '(l'', fs) := clock_run rest l' in
      (l'', f :: fs)
  end.

(** ** The formulas of the specification, for comparison *)

(** Following the spec's words: "interpret instant as a calendar date/time
    under a leap-second-free rule, then reinterpret that same calendar
    date/time under the leap-second-aware rule, and take the difference in
    resulting epoch seconds, plus a fixed historical constant (10)". *)
Definition computeOffset {libc : Libc} (instant : Z) : Z :=
  mktime (Some "right/UTC"%string) (gmtime (Some "posix/UTC"%string) instant)
  - instant + 10.

(** Following the spec's words:
    "correction = 1.0 - ((currentTick - slewBaseTick) / slewBaseTick)
                        * secondsOfDayWithFraction". *)
Definition correction_spec (currentTick slewBaseTick : Z)
    (secondsOfDayWithFraction : Q) : Q :=
  1.0 - (inject_Z (currentTick - slewBaseTick) / inject_Z slewBaseTick)
        * secondsOfDayWithFraction.

(** The UTC time of day of an instant, in seconds with its fraction. *)
Definition seconds_of_day (tv : timeval) : Q :=
  inject_Z (Z.rem (tv_sec tv) 86400) + inject_Z (tv_usec tv) / 1e6.

(** An instant in microseconds. *)
Definition micros (tv : timeval) : Z := tv_sec tv * 1000000 + tv_usec tv.

Definition int_range (z : Z) : Prop := - 2 ^ 31 <= z < 2 ^ 31.

(** The answers on which the loop keeps running: no key pressed (or a
    resize event) and a successful query of the kernel. *)
Definition keeps_running (p : poll) : Prop :=
  (ch p = ERR \/ ch p = KEY_RESIZE) /\ 0 <= adjtimex_ret p.

(** The microseconds left by [tv_utc.tv_usec -= diff * 1e6] for the [diff]
    of the formula. *)
Definition slewed_usec_Q (tick slew_tick sod usec : Z) : Z :=
  slewed_usec (diff64 tick slew_tick sod usec) usec.

(** ** The step test and the slew correction in IEEE binary64 *)

Module Binary64.

#[local] Set Warnings "-inexact-float".

Definition of_long (z : Z) : float :=
  if z <? 0 then PrimFloat.opp (PrimFloat.of_uint63 (Uint63.of_Z (- z)))
  else PrimFloat.of_uint63 (Uint63.of_Z z).

Definition diff_tv (tv1 tv2 : timeval) : float :=
  (of_long (tv_sec tv1 - tv_sec tv2)
   + of_long (tv_usec tv1 - tv_usec tv2) / 1e6)%float.

Definition classify (diff : float) : branch :=
  if PrimFloat.ltb (-1.0)%float diff && PrimFloat.ltb diff (-0.8)%float
  then BACKWARD_STEP
  else if PrimFloat.ltb 1.0%float diff || PrimFloat.ltb diff (-1.0)%float
  then DISCONTINUITY
  else NORMAL.

(** Conversion of a finite [double] to [long]: the fraction is discarded. *)
Definition to_long (x : float) : Z :=
  match Prim2SF x with
  | S754_finite sign m e =>
      let v := if 0 <=? e then Zpos m * 2 ^ e else Zpos m / 2 ^ (- e) in
      if sign then - v else v
  | _ => 0
  end.

(** [diff] as the slew branch computes it from [tick], [slew_tick] and
    [tv_utc]. *)
Definition slew_diff (tick slew_tick : Z) (utc : timeval) : float :=
  (1.0 - of_long (tick - slew_tick) / of_long slew_tick
         * (of_long (Z.rem (tv_sec utc) 86400) + of_long (tv_usec utc) / 1e6))%float.

(** [tv_utc.tv_usec] after [tv_utc.tv_usec -= diff * 1e6], before the
    borrow loop. *)
Definition slewed_usec (tick slew_tick : Z) (utc : timeval) : Z :=
  to_long (of_long (tv_usec utc) - slew_diff tick slew_tick utc * 1e6)%float.

(** The rational number a finite [double] denotes. *)
Definition to_Q (x : float) : Q :=
  match Prim2SF x with
  | S754_finite sign m e =>
      let v := (inject_Z (Zpos m) * 2 ^ e)%Q in
      if sign then (- v)%Q else v
  | _ => 0%Q
  end.

(** The slew arithmetic with rationals and [rnd] and with the primitive
    numbers gives the same [diff] and the same microseconds. *)
Definition agrees (tick slew_tick sod usec : Z) : bool :=
  Qeq_bool (diff64 tick slew_tick sod usec)
           (to_Q (slew_diff tick slew_tick (mk_timeval sod usec)))
  && (slewed_usec_Q tick slew_tick sod usec
      =? slewed_usec tick slew_tick (mk_timeval sod usec)).

(** Samples spread over the first [n / 7] seconds of a day. *)
Definition agrees_upto (n : nat) (tick slew_tick : Z) : bool :=
  forallb (fun i => agrees tick slew_tick (Z.of_nat i / 7)
                           ((Z.of_nat i * 137911) mod 1000000))
          (List.seq 0 n).

End Binary64.

(** ** The leap scenario

    The day starts at the instant [T]; [k] is the tick recorded before the
    slew and [s] the tick the kernel runs at while it slews the clock. *)

Section LeapScenario.
Variables (T k s : Z).










End LeapScenario.


(** ** Sample answers of the kernel *)

Module Sample.

(** The reference library with the leap seconds up to 2017-01-01. *)
Definition libc2017 : Libc := Calendar.libc Calendar.leap_days_2017.

(** 2017-01-01 00:00:00 UTC, the second after the latest inserted leap
    second. *)
Definition T2017 : Z := 1483228800.

(** No key pressed on an 80x24 terminal, a successful query. *)
Definition answer (sec usec kernel_tick : Z) : poll :=
  mk_poll ERR 80 24 0 (mk_timex (mk_timeval sec usec) 0 kernel_tick).

Definition slewing : locals :=
  mk_locals 37 37 false false true 10000 9999 (mk_timeval 1500000000 900000).

(** The reference library with one more leap second, inserted at the end
    of 2029, and the first second after it, 2030-01-01 00:00:00 UTC. *)
Definition libc2030 : Libc :=
  Calendar.libc (Calendar.leap_days_2017 ++ [(2030, 1, 1)]).

Definition T2030 : Z := 1893456000.

(** The variables of main 50 ms before that instant. *)
Definition before2030 : locals :=
  mk_locals 37 37 false false false 10000 0 (mk_timeval (T2030 - 1) 950000).



End Sample.

(** ** print_border *)

Inductive acs :=
| ACS_HLINE | ACS_VLINE
| ACS_ULCORNER | ACS_URCORNER | ACS_LLCORNER | ACS_LRCORNER.

(** A call [mvaddch(y, x, ch)]. *)
Record mvaddch_call := mk_mvaddch { cell_y : Z; cell_x : Z; cell_ch : acs }.

(** [for (i = 1; i < n; i++) body(i)]: the calls made, in order. *)
Definition for_from_1 {A : Type} (n : Z) (body : Z -> list A) : list A :=
  List.flat_map (fun i => body (Z.of_nat i)) (List.seq 1 (Z.to_nat n - 1)).

(** The [mvaddch] calls of [print_border(line, col)], in program order;
    the event [PrintBorder line col] stands for them. *)
Definition print_border (line col : Z) : list mvaddch_call :=
  for_from_1 CLOCK_COLS (fun i =>
    [mk_mvaddch line (col + i) ACS_HLINE;
     mk_mvaddch (line + CLOCK_LINES) (col + i) ACS_HLINE])
  ++ for_from_1 CLOCK_LINES (fun i =>
    [mk_mvaddch (line + i) col ACS_VLINE;
     mk_mvaddch (line + i) (col + CLOCK_COLS) ACS_VLINE])
  ++ [mk_mvaddch line col ACS_ULCORNER;
      mk_mvaddch line (col + CLOCK_COLS) ACS_URCORNER;
      mk_mvaddch (line + CLOCK_LINES) col ACS_LLCORNER;
      mk_mvaddch (line + CLOCK_LINES) (col + CLOCK_COLS) ACS_LRCORNER].

(** The character that belongs on the cell [dy] rows below and [dx] columns
    right of the upper left corner of the box, if the cell is on its frame. *)
Definition frame_char (dy dx : Z) : option acs :=
  if (dy <? 0) || (CLOCK_LINES <? dy) || (dx <? 0) || (CLOCK_COLS <? dx) then None
  else if dy =? 0 then
    Some (if dx =? 0 then ACS_ULCORNER
          else if dx =? CLOCK_COLS then ACS_URCORNER else ACS_HLINE)
  else if dy =? CLOCK_LINES then
    Some (if dx =? 0 then ACS_LLCORNER
          else if dx =? CLOCK_COLS then ACS_LRCORNER else ACS_HLINE)
  else if (dx =? 0) || (dx =? CLOCK_COLS) then Some ACS_VLINE
  else None.

(** ** Properties of runs *)

(** A kernel answer as the kernel gives it: a positive tick that fits an
    [int], a time after the epoch, microseconds in range. *)
Definition sane_answer (p : poll) : Prop :=
  0 < timex_tick (timex p) < 2 ^ 31
  /\ 0 <= tv_sec (read_time (timex p))
  /\ 0 <= tv_usec (read_time (timex p)) < 1000000.

(** The calls each mode of the program may make inside the loop. *)
Definition loop_event (debug : bool) (e : event) : Prop :=
  match e with
  | Getch | Adjtimex | Usleep _ => True
  | Erase | PrintBorder _ _ | Mvprintw _ _ _ _ _ | Refresh => debug = false
  | PrintfDiff _ _ _ _ | PrintfTime _ _ _ => debug = true
  | Initscr | Endwin => False
  end.

(** * Properties *)

(** ** Comparisons and conversions *)

Lemma Qlt_bool_iff (x y : Q) : Qlt_bool x y = true <-> (x < y)%Q.
Proof.
  unfold Qlt_bool. rewrite negb_true_iff.
  split; intro H.
  - apply Qnot_le_lt. intro Hle. apply Qle_bool_iff in Hle. congruence.
  - destruct (Qle_bool y x) eqn:E; [|reflexivity].
    apply Qle_bool_iff in E. exfalso. exact (Qlt_not_le _ _ H E).
Qed.

Lemma Qlt_bool_false_iff (x y : Q) : Qlt_bool x y = false <-> (y <= x)%Q.
Proof.
  unfold Qlt_bool. rewrite negb_false_iff. apply Qle_bool_iff.
Qed.

Lemma inject_Z_sub (x y : Z) : (inject_Z (x - y) == inject_Z x - inject_Z y)%Q.
Proof. unfold Qeq, Qminus, Qplus, Qopp, inject_Z. cbn. lia. Qed.

Lemma to_int_id (z : Z) : int_range z -> to_int z = z.
Proof.
  unfold int_range, to_int. intros H.
  rewrite Z.mod_small; lia.
Qed.

(** ** Rounding to binary64 *)

Lemma pow2_pos (e : Z) : (0 < 2 ^ e)%Q.
Proof. apply Qpower_0_lt. reflexivity. Qed.

Lemma pow2_nonzero (e : Z) : ~ (2 ^ e == 0)%Q.
Proof. pose proof (pow2_pos e). lra. Qed.

Lemma pow2_le (a b : Z) : a <= b -> (2 ^ a <= 2 ^ b)%Q.
Proof. intros H. apply Qpower_le_compat_l; [exact H | discriminate]. Qed.

Lemma pow2_lt (a b : Z) : a < b -> (2 ^ a < 2 ^ b)%Q.
Proof. intros H. apply Qpower_lt_compat_l; [exact H | reflexivity]. Qed.

Lemma pow2_add (a b : Z) : (2 ^ (a + b) == 2 ^ a * 2 ^ b)%Q.
Proof. apply Qpower_plus. discriminate. Qed.

Lemma pow2_sub (a b : Z) : (2 ^ (a - b) == 2 ^ a / 2 ^ b)%Q.
Proof. apply Qpower_minus. discriminate. Qed.

Lemma pow2_inject (n : Z) : 0 <= n -> (inject_Z (2 ^ n) == 2 ^ n)%Q.
Proof. intros H. rewrite Zpower_Qpower by exact H. reflexivity. Qed.

Lemma Qdiv_lt_div (n d A B : Q) :
  (0 < d)%Q -> (0 < B)%Q -> (0 < A)%Q -> (n < A)%Q -> (B <= d)%Q ->
  (n / d < A / B)%Q.
Proof.
  intros Hd HB HA Hn HBd.
  apply Qlt_shift_div_r; [exact Hd|].
  assert (H1 : (1 <= d / B)%Q)
    by (apply Qle_shift_div_l; [exact HB | lra]).
  assert (E : (A / B * d == A * (d / B))%Q) by (field; lra).
  rewrite E.
  assert (A * 1 <= A * (d / B))%Q by (apply Qmult_le_l; assumption).
  lra.
Qed.

Lemma Qdiv_le_div (n d A B : Q) :
  (0 < d)%Q -> (0 < B)%Q -> (0 < A)%Q -> (A <= n)%Q -> (d <= B)%Q ->
  (A / B <= n / d)%Q.
Proof.
  intros Hd HB HA Hn HBd.
  apply Qle_shift_div_l; [exact Hd|].
  assert (H1 : (d / B <= 1)%Q)
    by (apply Qle_shift_div_r; [exact HB | lra]).
  assert (E : (A / B * d == A * (d / B))%Q) by (field; lra).
  rewrite E.
  assert (A * (d / B) <= A * 1)%Q by (apply Qmult_le_l; assumption).
  lra.
Qed.

Lemma ilog2_spec (x : Q) :
  (0 < x)%Q -> (2 ^ ilog2 x <= x)%Q /\ (x < 2 ^ (ilog2 x + 1))%Q.
Proof.
  intros Hx. destruct x as [n d].
  assert (Hn : 0 < n) by (unfold Qlt in Hx; cbn in Hx; lia).
  pose proof (Z.log2_spec n Hn) as [Hn1 Hn2].
  pose proof (Z.log2_spec (Zpos d) ltac:(lia)) as [Hd1 Hd2].
  pose proof (Z.log2_nonneg n) as Ln.
  pose proof (Z.log2_nonneg (Zpos d)) as Ld.
  unfold ilog2. cbn [Qnum Qden].
  set (la := Z.log2 n) in *. set (lb := Z.log2 (Zpos d)) in *.
  assert (Hx' : (n # d == inject_Z n / inject_Z (Zpos d))%Q) by apply Qmake_Qdiv.
  assert (Hdpos : (0 < inject_Z (Zpos d))%Q) by reflexivity.
  assert (Hup : (n # d < 2 ^ (la - lb + 1))%Q).
  { rewrite Hx'.
    replace (la - lb + 1) with ((la + 1) - lb) by lia.
    rewrite pow2_sub.
    apply Qdiv_lt_div; try apply pow2_pos; try exact Hdpos.
    - rewrite <- pow2_inject by lia. rewrite <- Zlt_Qlt. lia.
    - rewrite <- pow2_inject by lia. rewrite <- Zle_Qle. lia. }
  assert (Hlow : (2 ^ (la - lb - 1) <= n # d)%Q).
  { rewrite Hx'.
    replace (la - lb - 1) with (la - (lb + 1)) by lia.
    rewrite pow2_sub.
    apply Qdiv_le_div; try apply pow2_pos; try exact Hdpos.
    - rewrite <- pow2_inject by lia. rewrite <- Zle_Qle. lia.
    - rewrite <- pow2_inject by lia. rewrite <- Zle_Qle. lia. }
  destruct (Qle_bool (2 ^ (la - lb)) (n # d)) eqn:E.
  - apply Qle_bool_iff in E. split; assumption.
  - split; [exact Hlow|].
    replace (la - lb - 1 + 1) with (la - lb) by lia.
    apply Qnot_le_lt. intros H. apply Qle_bool_iff in H. congruence.
Qed.

Lemma ilog2_unique (x : Q) (e : Z) :
  (2 ^ e <= x)%Q -> (x < 2 ^ (e + 1))%Q -> ilog2 x = e.
Proof.
  intros H1 H2.
  assert (Hx : (0 < x)%Q) by (pose proof (pow2_pos e); lra).
  destruct (ilog2_spec x Hx) as [L1 L2].
  assert (A : ilog2 x < e + 1).
  { apply (Qpower_lt_compat_l_inv 2); [lra | reflexivity]. }
  assert (B : e < ilog2 x + 1).
  { apply (Qpower_lt_compat_l_inv 2); [lra | reflexivity]. }
  lia.
Qed.

Lemma ilog2_mono (x y : Q) : (0 < x)%Q -> (x <= y)%Q -> ilog2 x <= ilog2 y.
Proof.
  intros Hx Hxy.
  destruct (ilog2_spec x Hx) as [L1 _].
  destruct (ilog2_spec y ltac:(lra)) as [_ M2].
  assert (A : ilog2 x < ilog2 y + 1).
  { apply (Qpower_lt_compat_l_inv 2); [lra | reflexivity]. }
  lia.
Qed.

Lemma ilog2_le (x : Q) (k : Z) : (0 < x)%Q -> (x < 2 ^ k)%Q -> ilog2 x < k.
Proof.
  intros Hx H. destruct (ilog2_spec x Hx) as [L1 _].
  apply (Qpower_lt_compat_l_inv 2); [lra | reflexivity].
Qed.

(** The nearest integer. *)

Lemma rhe_cases (x : Q) :
  round_half_even x = Qfloor x \/ round_half_even x = Qfloor x + 1.
Proof.
  unfold round_half_even. destruct (_ ?= _)%Q; [destruct (Z.even _)| |]; auto.
Qed.

Lemma frac_bounds (x : Q) : (0 <= x - inject_Z (Qfloor x) < 1)%Q.
Proof.
  pose proof (Qfloor_le x). pose proof (Qlt_floor x) as H1.
  rewrite inject_Z_plus in H1. change (inject_Z 1) with 1%Q in H1. split; lra.
Qed.

Lemma rhe_err (x : Q) :
  (x - (1 # 2) <= inject_Z (round_half_even x) <= x + (1 # 2))%Q.
Proof.
  pose proof (frac_bounds x) as Hf.
  unfold round_half_even.
  destruct (Qcompare_spec (x - inject_Z (Qfloor x)) (1 # 2)) as [E|E|E].
  - destruct (Z.even (Qfloor x));
      [|rewrite inject_Z_plus; change (inject_Z 1) with 1%Q]; split; lra.
  - split; lra.
  - rewrite inject_Z_plus. change (inject_Z 1) with 1%Q. split; lra.
Qed.

Lemma rhe_Z (n : Z) : round_half_even (inject_Z n) = n.
Proof.
  unfold round_half_even. rewrite Qfloor_Z.
  assert (E : (inject_Z n - inject_Z n ?= 1 # 2)%Q = Lt).
  { apply (proj1 (Qlt_alt _ _)). unfold Qminus. rewrite Qplus_opp_r. reflexivity. }
  rewrite E. reflexivity.
Qed.

Lemma rhe_mono (x y : Q) : (x <= y)%Q -> round_half_even x <= round_half_even y.
Proof.
  intros Hxy.
  pose proof (Qfloor_resp_le x y Hxy) as Hf.
  destruct (Z_lt_dec (Qfloor x) (Qfloor y)) as [Hlt|Hge].
  - destruct (rhe_cases x) as [->| ->].
    + pose proof (rhe_err y). pose proof (frac_bounds y).
      destruct (rhe_cases y) as [->| ->]; lia.
    + destruct (rhe_cases y) as [->| ->]; lia.
  - assert (E : Qfloor x = Qfloor y) by lia.
    unfold round_half_even. rewrite E.
    destruct (Qcompare_spec (x - inject_Z (Qfloor y)) (1 # 2)) as [A|A|A];
      destruct (Qcompare_spec (y - inject_Z (Qfloor y)) (1 # 2)) as [B|B|B];
      try destruct (Z.even (Qfloor y)); try lia; exfalso; lra.
Qed.

Lemma rhe_comp (x y : Q) : (x == y)%Q -> round_half_even x = round_half_even y.
Proof.
  intros H. apply Z.le_antisymm; apply rhe_mono; lra.
Qed.

(** Positive numbers. *)

Lemma ulp_exp_mono (x y : Q) : (0 < x)%Q -> (x <= y)%Q -> ulp_exp x <= ulp_exp y.
Proof.
  intros Hx Hxy. unfold ulp_exp. pose proof (ilog2_mono x y Hx Hxy). lia.
Qed.

Lemma mantissa_lt (x : Q) : (0 < x)%Q -> (x / 2 ^ ulp_exp x < 2 ^ 53)%Q.
Proof.
  intros Hx. destruct (ilog2_spec x Hx) as [_ H].
  apply Qlt_shift_div_r; [apply pow2_pos|].
  rewrite <- pow2_add.
  apply Qlt_le_trans with (1 := H). apply pow2_le. unfold ulp_exp. lia.
Qed.

Lemma mantissa_ge (x : Q) :
  (0 < x)%Q -> -1074 < ulp_exp x -> (2 ^ 52 <= x / 2 ^ ulp_exp x)%Q.
Proof.
  intros Hx He. destruct (ilog2_spec x Hx) as [H _].
  apply Qle_shift_div_l; [apply pow2_pos|].
  rewrite <- pow2_add.
  apply Qle_trans with (2 := H). apply pow2_le. unfold ulp_exp in *. lia.
Qed.

Lemma rhe_pow2 (n : Z) : 0 <= n -> round_half_even (2 ^ n) = 2 ^ n.
Proof.
  intros H. rewrite <- (rhe_comp (inject_Z (2 ^ n))) by (apply pow2_inject; exact H).
  apply rhe_Z.
Qed.

Lemma rnd_pos_le (x : Q) : (0 < x)%Q -> (rnd_pos x <= 2 ^ (53 + ulp_exp x))%Q.
Proof.
  intros Hx. unfold rnd_pos. rewrite pow2_add.
  apply Qmult_le_compat_r; [|apply Qlt_le_weak, pow2_pos].
  rewrite <- (pow2_inject 53) by lia. rewrite <- Zle_Qle.
  rewrite <- (rhe_pow2 53) by lia.
  apply rhe_mono. apply Qlt_le_weak, mantissa_lt. exact Hx.
Qed.

Lemma rnd_pos_ge (x : Q) :
  (0 < x)%Q -> -1074 < ulp_exp x -> (2 ^ (52 + ulp_exp x) <= rnd_pos x)%Q.
Proof.
  intros Hx He. unfold rnd_pos. rewrite pow2_add.
  apply Qmult_le_compat_r; [|apply Qlt_le_weak, pow2_pos].
  rewrite <- (pow2_inject 52) by lia. rewrite <- Zle_Qle.
  rewrite <- (rhe_pow2 52) by lia.
  apply rhe_mono. apply mantissa_ge; assumption.
Qed.

Lemma rnd_pos_nonneg (x : Q) : (0 < x)%Q -> (0 <= rnd_pos x)%Q.
Proof.
  intros Hx. unfold rnd_pos.
  apply Qmult_le_0_compat; [|apply Qlt_le_weak, pow2_pos].
  change 0%Q with (inject_Z 0). rewrite <- Zle_Qle.
  rewrite <- (rhe_Z 0). apply rhe_mono.
  apply Qle_shift_div_l; [apply pow2_pos|]. change (inject_Z 0) with 0%Q. lra.
Qed.

Lemma rnd_pos_mono (x y : Q) : (0 < x)%Q -> (x <= y)%Q -> (rnd_pos x <= rnd_pos y)%Q.
Proof.
  intros Hx Hxy.
  assert (Hy : (0 < y)%Q) by lra.
  pose proof (ulp_exp_mono x y Hx Hxy) as He.
  destruct (Z_lt_dec (ulp_exp x) (ulp_exp y)) as [Hlt|Hge].
  - apply Qle_trans with (2 ^ (53 + ulp_exp x))%Q; [apply rnd_pos_le; exact Hx|].
    apply Qle_trans with (2 ^ (52 + ulp_exp y))%Q; [apply pow2_le; lia|].
    apply rnd_pos_ge; [exact Hy|].
    unfold ulp_exp in *. lia.
  - assert (E : ulp_exp x = ulp_exp y) by lia.
    unfold rnd_pos. rewrite E.
    apply Qmult_le_compat_r; [|apply Qlt_le_weak, pow2_pos].
    rewrite <- Zle_Qle. apply rhe_mono.
    apply Qmult_le_compat_r; [exact Hxy|].
    apply Qlt_le_weak, Qinv_lt_0_compat, pow2_pos.
Qed.

Lemma rnd_pos_comp (x y : Q) : (0 < x)%Q -> (x == y)%Q -> (rnd_pos x == rnd_pos y)%Q.
Proof.
  intros Hx E. apply Qle_antisym; apply rnd_pos_mono; lra.
Qed.

Lemma rnd_pos_Z (n : Z) : 0 < n < 2 ^ 53 -> (rnd_pos (inject_Z n) == inject_Z n)%Q.
Proof.
  intros Hn.
  assert (Hx : (0 < inject_Z n)%Q) by (change 0%Q with (inject_Z 0); rewrite <- Zlt_Qlt; lia).
  assert (He : ulp_exp (inject_Z n) <= 0).
  { unfold ulp_exp.
    assert (ilog2 (inject_Z n) < 53).
    { apply ilog2_le; [exact Hx|]. rewrite <- pow2_inject by lia.
      rewrite <- Zlt_Qlt. lia. }
    lia. }
  unfold rnd_pos. set (e := ulp_exp (inject_Z n)) in *.
  assert (E2 : (2 ^ e == / inject_Z (2 ^ (- e)))%Q).
  { rewrite pow2_inject by lia. rewrite <- Qpower_opp.
    replace (- - e) with e by lia. reflexivity. }
  assert (Hp : (0 < inject_Z (2 ^ (- e)))%Q).
  { rewrite pow2_inject by lia. apply pow2_pos. }
  assert (E1 : (inject_Z n / 2 ^ e == inject_Z (n * 2 ^ (- e)))%Q).
  { rewrite E2, inject_Z_mult. field. lra. }
  rewrite (rhe_comp _ _ E1), rhe_Z, E2, inject_Z_mult. field. lra.
Qed.

Lemma rnd_pos_err (x : Q) (k : Z) :
  (0 < x)%Q -> (x <= 2 ^ k)%Q -> -1022 <= k ->
  (x - 2 ^ (k - 53) <= rnd_pos x <= x + 2 ^ (k - 53))%Q.
Proof.
  intros Hx Hk Hr.
  assert (He : ulp_exp x <= k - 52).
  { unfold ulp_exp.
    assert (ilog2 x < k + 1).
    { apply ilog2_le; [exact Hx|].
      apply Qle_lt_trans with (1 := Hk). apply pow2_lt. lia. }
    lia. }
  unfold rnd_pos. set (e := ulp_exp x) in *.
  pose proof (rhe_err (x / 2 ^ e)) as [H1 H2].
  pose proof (pow2_pos e) as Hp.
  assert (Hh : ((1 # 2) * 2 ^ e <= 2 ^ (k - 53))%Q).
  { apply Qle_trans with ((1 # 2) * 2 ^ (k - 52))%Q.
    - apply Qmult_le_l; [reflexivity | apply pow2_le; exact He].
    - replace (k - 52) with (1 + (k - 53)) by lia. rewrite pow2_add.
      change (2 ^ 1)%Q with 2%Q. lra. }
  assert (Ex : (x == x / 2 ^ e * 2 ^ e)%Q) by (field; lra).
  set (m := inject_Z (round_half_even (x / 2 ^ e))) in *.
  assert (L1 : ((x / 2 ^ e - (1 # 2)) * 2 ^ e <= m * 2 ^ e)%Q)
    by (apply Qmult_le_compat_r; lra).
  assert (L2 : (m * 2 ^ e <= (x / 2 ^ e + (1 # 2)) * 2 ^ e)%Q)
    by (apply Qmult_le_compat_r; lra).
  assert (Ea : ((x / 2 ^ e - (1 # 2)) * 2 ^ e == x - (1 # 2) * 2 ^ e)%Q)
    by (field; lra).
  assert (Eb : ((x / 2 ^ e + (1 # 2)) * 2 ^ e == x + (1 # 2) * 2 ^ e)%Q)
    by (field; lra).
  split; lra.
Qed.

(** All numbers. *)

Lemma rnd_pos_eq (x : Q) : (0 < x)%Q -> rnd x = rnd_pos x.
Proof.
  intros H. unfold rnd. apply (proj1 (Qgt_alt _ _)) in H. rewrite H. reflexivity.
Qed.

Lemma rnd_neg_eq (x : Q) : (x < 0)%Q -> rnd x = (- rnd_pos (- x))%Q.
Proof.
  intros H. unfold rnd. apply (proj1 (Qlt_alt _ _)) in H. rewrite H. reflexivity.
Qed.

Lemma rnd_zero_eq (x : Q) : (x == 0)%Q -> rnd x = 0%Q.
Proof.
  intros H. unfold rnd. apply (proj1 (Qeq_alt _ _)) in H. rewrite H. reflexivity.
Qed.

Lemma rnd_sign (x : Q) :
  ((0 <= x)%Q -> (0 <= rnd x)%Q) /\ ((x <= 0)%Q -> (rnd x <= 0)%Q).
Proof.
  destruct (Q_dec x 0) as [[H|H]|H].
  - rewrite (rnd_neg_eq x H).
    pose proof (rnd_pos_nonneg (- x) ltac:(lra)). split; intros; lra.
  - rewrite (rnd_pos_eq x H).
    pose proof (rnd_pos_nonneg x H). split; intros; lra.
  - rewrite (rnd_zero_eq x H). split; intros; lra.
Qed.

Lemma rnd_mono (x y : Q) : (x <= y)%Q -> (rnd x <= rnd y)%Q.
Proof.
  intros Hxy.
  destruct (Q_dec x 0) as [[Hx|Hx]|Hx]; destruct (Q_dec y 0) as [[Hy|Hy]|Hy];
    try (exfalso; lra).
  - rewrite (rnd_neg_eq x Hx), (rnd_neg_eq y Hy).
    pose proof (rnd_pos_mono (- y) (- x) ltac:(lra) ltac:(lra)). lra.
  - pose proof (proj2 (rnd_sign x) ltac:(lra)).
    pose proof (proj1 (rnd_sign y) ltac:(lra)). lra.
  - pose proof (proj2 (rnd_sign x) ltac:(lra)).
    pose proof (proj1 (rnd_sign y) ltac:(lra)). lra.
  - rewrite (rnd_pos_eq x Hx), (rnd_pos_eq y Hy).
    apply rnd_pos_mono; assumption.
  - pose proof (proj2 (rnd_sign x) ltac:(lra)).
    pose proof (proj1 (rnd_sign y) ltac:(lra)). lra.
  - pose proof (proj2 (rnd_sign x) ltac:(lra)).
    pose proof (proj1 (rnd_sign y) ltac:(lra)). lra.
Qed.

Lemma rnd_comp (x y : Q) : (x == y)%Q -> (rnd x == rnd y)%Q.
Proof. intros H. apply Qle_antisym; apply rnd_mono; lra. Qed.

#[global] Instance rnd_proper : Proper (Qeq ==> Qeq) rnd.
Proof. intros x y H. apply rnd_comp. exact H. Qed.

Lemma rnd_opp (x : Q) : (rnd (- x) == - rnd x)%Q.
Proof.
  destruct (Q_dec x 0) as [[H|H]|H].
  - rewrite (rnd_neg_eq x H), (rnd_pos_eq (- x)) by lra. lra.
  - rewrite (rnd_pos_eq x H), (rnd_neg_eq (- x)) by lra.
    rewrite (rnd_pos_comp (- - x) x); lra.
  - rewrite (rnd_zero_eq x H), (rnd_zero_eq (- x)) by lra. lra.
Qed.

Lemma rnd_Z (n : Z) : - 2 ^ 53 < n < 2 ^ 53 -> (rnd (inject_Z n) == inject_Z n)%Q.
Proof.
  intros Hn.
  destruct (Z.lt_trichotomy n 0) as [H|[H|H]].
  - assert (Hx : (inject_Z n < 0)%Q)
      by (change 0%Q with (inject_Z 0); rewrite <- Zlt_Qlt; lia).
    rewrite (rnd_neg_eq _ Hx).
    rewrite (rnd_pos_comp (- inject_Z n) (inject_Z (- n))).
    + rewrite rnd_pos_Z by lia. rewrite inject_Z_opp. lra.
    + lra.
    + rewrite inject_Z_opp. reflexivity.
  - subst n. reflexivity.
  - assert (Hx : (0 < inject_Z n)%Q)
      by (change 0%Q with (inject_Z 0); rewrite <- Zlt_Qlt; lia).
    rewrite (rnd_pos_eq _ Hx). apply rnd_pos_Z. lia.
Qed.

Lemma rnd_err (x : Q) (k : Z) :
  (- 2 ^ k <= x <= 2 ^ k)%Q -> -1022 <= k ->
  (x - 2 ^ (k - 53) <= rnd x <= x + 2 ^ (k - 53))%Q.
Proof.
  intros [H1 H2] Hk. pose proof (pow2_pos (k - 53)) as Hp.
  destruct (Q_dec x 0) as [[H|H]|H].
  - rewrite (rnd_neg_eq x H).
    pose proof (rnd_pos_err (- x) k ltac:(lra) ltac:(lra) Hk). lra.
  - rewrite (rnd_pos_eq x H).
    apply rnd_pos_err; assumption.
  - rewrite (rnd_zero_eq x H). lra.
Qed.

(** The error at the magnitudes that occur in the slew. *)

Lemma rnd_err_1 (x : Q) :
  (-1 <= x <= 1)%Q ->
  (x - (1 # 9007199254740992) <= rnd x <= x + (1 # 9007199254740992))%Q.
Proof.
  intros H. apply (rnd_err x 0); [|lia].
  change (2 ^ 0)%Q with 1%Q. lra.
Qed.

Lemma rnd_err_17 (x : Q) :
  (-131072 <= x <= 131072)%Q ->
  (x - (1 # 68719476736) <= rnd x <= x + (1 # 68719476736))%Q.
Proof.
  intros H. apply (rnd_err x 17); [|lia].
  change (2 ^ 17)%Q with 131072%Q. lra.
Qed.

Lemma rnd_err_20 (x : Q) :
  (-1048576 <= x <= 1048576)%Q ->
  (x - (1 # 8589934592) <= rnd x <= x + (1 # 8589934592))%Q.
Proof.
  intros H. apply (rnd_err x 20); [|lia].
  change (2 ^ 20)%Q with 1048576%Q. lra.
Qed.

Lemma rnd_0 : (rnd 0 == 0)%Q.
Proof. reflexivity. Qed.

Lemma rnd_1 : (rnd 1 == 1)%Q.
Proof. apply (rnd_Z 1). lia. Qed.

Lemma rnd_nonneg (x : Q) : (0 <= x)%Q -> (0 <= rnd x)%Q.
Proof. apply rnd_sign. Qed.

Lemma rnd_le_Z (x : Q) (n : Z) :
  - 2 ^ 53 < n < 2 ^ 53 -> (x <= inject_Z n)%Q -> (rnd x <= inject_Z n)%Q.
Proof.
  intros Hn H. rewrite <- (rnd_Z n Hn). apply rnd_mono. exact H.
Qed.

Lemma rnd_ge_Z (x : Q) (n : Z) :
  - 2 ^ 53 < n < 2 ^ 53 -> (inject_Z n <= x)%Q -> (inject_Z n <= rnd x)%Q.
Proof.
  intros Hn H. rewrite <- (rnd_Z n Hn). apply rnd_mono. exact H.
Qed.

Lemma inject_Z_le0 (n : Z) : 0 <= n -> (0 <= inject_Z n)%Q.
Proof. intros H. unfold Qle, inject_Z. cbn. lia. Qed.

Lemma inject_Z_lt0 (n : Z) : 0 < n -> (0 < inject_Z n)%Q.
Proof. intros H. unfold Qlt, inject_Z. cbn. lia. Qed.

Lemma million : (1e6 == 1000000)%Q.
Proof. reflexivity. Qed.

Lemma one_point_zero : (1.0 == 1)%Q.
Proof. reflexivity. Qed.

(** ** The slew arithmetic in binary64 *)

(** The rounding [rnd] against the primitive binary64 numbers: on these
    samples of the first seconds of a day, and for these pairs of ticks, the
    slew branch computes the same [diff] and the same microseconds with
    either. *)
Lemma rnd_agrees_with_primitive_floats :
  Binary64.agrees 10000 9800 49 0 = true
  /\ Binary64.agrees 10000 9001 1 890210 = true
  /\ Binary64.agrees 10000 9999 1 960000 = true
  /\ Binary64.agrees 10000 9999 0 500000 = true
  /\ Binary64.agrees_upto 30 10000 9000 = true
  /\ Binary64.agrees_upto 30 10000 9999 = true
  /\ Binary64.agrees_upto 30 11000 9000 = true
  /\ Binary64.agrees_upto 30 10000 9800 = true.
Proof. repeat split; vm_compute; reflexivity. Qed.

(** In binary64 the correction is not exactly zero at the instant the exact
    one is: 49 s into the day, with ticks 10000 and 9800, [diff] is 2^-53
    and the slew goes on; and the microseconds can be one less than the
    exact correction gives: 99999 where 0.890210 s minus 0.79021 s is
    0.1 s. *)
Lemma diff64_rounding_examples :
  (diff64 10000 9800 49 0 == 1 # 9007199254740992)%Q
  /\ (correction_spec 10000 9800 (seconds_of_day (mk_timeval 49 0)) == 0)%Q
  /\ slewed_usec (diff64 10000 9001 1 890210) 890210 = 99999
  /\ (inject_Z 890210
      - correction_spec 10000 9001 (seconds_of_day (mk_timeval 1 890210))
        * 1000000 == 100000)%Q.
Proof. repeat split; vm_compute; reflexivity. Qed.


(** The quotient of the ticks. *)
Lemma ratio_bounds (t b : Z) :
  0 < b -> b <= t -> t < 2 ^ 53 ->
  (0 <= fdiv (double_of_long (t - b)) (double_of_long b))%Q
  /\ (t <= 2 * b ->
      (fdiv (double_of_long (t - b)) (double_of_long b) <= 1)%Q
      /\ (inject_Z (t - b) / inject_Z b - (1 # 9007199254740992)
          <= fdiv (double_of_long (t - b)) (double_of_long b)
          <= inject_Z (t - b) / inject_Z b + (1 # 9007199254740992))%Q).
Proof.
  intros Hb Hbt Ht. unfold fdiv, double_of_long.
  rewrite (rnd_Z (t - b)), (rnd_Z b) by lia.
  pose proof (inject_Z_lt0 b Hb) as Hbq.
  assert (H0 : (0 <= inject_Z (t - b) / inject_Z b)%Q).
  { apply Qle_shift_div_l; [exact Hbq|]. rewrite Qmult_0_l.
    apply inject_Z_le0. lia. }
  split; [apply rnd_nonneg; exact H0|].
  intros H2.
  assert (H1 : (inject_Z (t - b) / inject_Z b <= 1)%Q).
  { apply Qle_shift_div_r; [exact Hbq|]. rewrite Qmult_1_l.
    rewrite <- Zle_Qle. lia. }
  split.
  - rewrite <- rnd_1. apply rnd_mono. exact H1.
  - apply rnd_err_1. lra.
Qed.

(** The seconds of the day. *)
Lemma frac_bounds64 (u : Z) :
  0 <= u < 1000000 ->
  (0 <= fdiv (double_of_long u) 1e6 <= 1)%Q
  /\ (inject_Z u / 1000000 - (1 # 9007199254740992)
      <= fdiv (double_of_long u) 1e6
      <= inject_Z u / 1000000 + (1 # 9007199254740992))%Q.
Proof.
  intros Hu. unfold fdiv, double_of_long.
  rewrite (rnd_Z u), million by lia.
  assert (H0 : (0 <= inject_Z u / 1000000)%Q).
  { apply Qle_shift_div_l; [reflexivity|]. rewrite Qmult_0_l.
    apply inject_Z_le0. lia. }
  assert (H1 : (inject_Z u / 1000000 <= 1)%Q).
  { apply Qle_shift_div_r; [reflexivity|]. rewrite Qmult_1_l.
    change 1000000%Q with (inject_Z 1000000). rewrite <- Zle_Qle. lia. }
  split; [split|].
  - apply rnd_nonneg. exact H0.
  - rewrite <- rnd_1. apply rnd_mono. exact H1.
  - apply rnd_err_1. lra.
Qed.

Lemma sod64_bounds (sod u : Z) :
  0 <= sod < 86400 -> 0 <= u < 1000000 ->
  (0 <= fadd (double_of_long sod) (fdiv (double_of_long u) 1e6) <= 86400)%Q
  /\ (inject_Z sod + inject_Z u / 1000000 - (1 # 34359738368)
      <= fadd (double_of_long sod) (fdiv (double_of_long u) 1e6)
      <= inject_Z sod + inject_Z u / 1000000 + (1 # 34359738368))%Q.
Proof.
  intros Hs Hu.
  destruct (frac_bounds64 u Hu) as [[F0 F1] [F2 F3]].
  set (f := fdiv (double_of_long u) 1e6) in *.
  unfold fadd, double_of_long. rewrite (rnd_Z sod) by lia.
  pose proof (inject_Z_le0 sod ltac:(lia)) as S0.
  assert (S1 : (inject_Z sod <= 86399)%Q).
  { change 86399%Q with (inject_Z 86399). rewrite <- Zle_Qle. lia. }
  split; [split|].
  - apply rnd_nonneg. lra.
  - apply (rnd_le_Z _ 86400); [lia|]. change (inject_Z 86400) with 86400%Q. lra.
  - pose proof (rnd_err_17 (inject_Z sod + f) ltac:(lra)). lra.
Qed.

Lemma prod_err (q r S sg e1 e2 M : Q) :
  (r - e1 <= q <= r + e1)%Q -> (0 <= S <= M)%Q -> (0 <= r <= 1)%Q ->
  (sg - e2 <= S <= sg + e2)%Q -> (0 <= e1)%Q ->
  (r * sg - (e1 * M + e2) <= q * S <= r * sg + (e1 * M + e2))%Q.
Proof.
  intros Hq HS Hr Hs He.
  assert (P1 : (0 <= (e1 - (q - r)) * S)%Q) by (apply Qmult_le_0_compat; lra).
  assert (P2 : (0 <= (e1 + (q - r)) * S)%Q) by (apply Qmult_le_0_compat; lra).
  assert (P3 : (0 <= e1 * (M - S))%Q) by (apply Qmult_le_0_compat; lra).
  assert (P4 : (0 <= r * (e2 - (S - sg)))%Q) by (apply Qmult_le_0_compat; lra).
  assert (P5 : (0 <= r * (e2 + (S - sg)))%Q) by (apply Qmult_le_0_compat; lra).
  assert (P6 : (0 <= (1 - r) * e2)%Q) by (apply Qmult_le_0_compat; lra).
  split; lra.
Qed.

Lemma diff64_le_1 (t b sod u : Z) :
  0 < b -> b <= t -> t < 2 ^ 53 -> 0 <= sod < 2 ^ 53 -> 0 <= u < 2 ^ 53 ->
  (diff64 t b sod u <= 1)%Q.
Proof.
  intros Hb Hbt Ht Hs Hu.
  destruct (ratio_bounds t b Hb Hbt Ht) as [Q0 _].
  unfold diff64.
  set (q := fdiv (double_of_long (t - b)) (double_of_long b)) in *.
  assert (S0 : (0 <= fadd (double_of_long sod) (fdiv (double_of_long u) 1e6))%Q).
  { unfold fadd, fdiv, double_of_long. apply rnd_nonneg.
    rewrite (rnd_Z sod), (rnd_Z u), million by lia.
    pose proof (inject_Z_le0 sod ltac:(lia)).
    assert (0 <= rnd (inject_Z u / 1000000))%Q.
    { apply rnd_nonneg. apply Qle_shift_div_l; [reflexivity|].
      rewrite Qmult_0_l. apply inject_Z_le0. lia. }
    lra. }
  set (S := fadd _ _) in *.
  unfold fsub, fmul. rewrite one_point_zero.
  apply (rnd_le_Z _ 1); [lia|]. change (inject_Z 1) with 1%Q.
  assert (0 <= rnd (q * S))%Q by (apply rnd_nonneg, Qmult_le_0_compat; assumption).
  lra.
Qed.

Lemma diff64_err (t b sod u : Z) :
  0 < b -> b <= t -> t <= 2 * b -> t < 2 ^ 53 ->
  0 <= sod < 86400 -> 0 <= u < 1000000 ->
  (1 - inject_Z (t - b) / inject_Z b * (inject_Z sod + inject_Z u / 1000000)
     - (1 # 8589934592)
   <= diff64 t b sod u
   <= 1 - inject_Z (t - b) / inject_Z b * (inject_Z sod + inject_Z u / 1000000)
      + (1 # 8589934592))%Q.
Proof.
  intros Hb Hbt Ht2 Ht Hs Hu.
  destruct (ratio_bounds t b Hb Hbt Ht) as [Q0 HQ].
  destruct (HQ Ht2) as [Q1 Qe]. clear HQ.
  destruct (sod64_bounds sod u Hs Hu) as [[S0 S1] Se].
  unfold diff64.
  set (q := fdiv (double_of_long (t - b)) (double_of_long b)) in *.
  set (S := fadd (double_of_long sod) (fdiv (double_of_long u) 1e6)) in *.
  set (r := (inject_Z (t - b) / inject_Z b)%Q) in *.
  set (sg := (inject_Z sod + inject_Z u / 1000000)%Q) in *.
  assert (R0 : (0 <= r <= 1)%Q).
  { pose proof (inject_Z_lt0 b Hb) as Hbq. unfold r. split.
    - apply Qle_shift_div_l; [exact Hbq|]. rewrite Qmult_0_l.
      apply inject_Z_le0. lia.
    - apply Qle_shift_div_r; [exact Hbq|]. rewrite Qmult_1_l.
      rewrite <- Zle_Qle. lia. }
  pose proof (prod_err q r S sg (1 # 9007199254740992) (1 # 34359738368) 86400
                Qe (conj S0 S1) R0 Se ltac:(lra)) as Hm.
  assert (M0 : (0 <= q * S)%Q) by (apply Qmult_le_0_compat; assumption).
  assert (M1 : (q * S <= 86400)%Q).
  { assert (0 <= (1 - q) * S)%Q by (apply Qmult_le_0_compat; lra). lra. }
  unfold fsub, fmul. rewrite one_point_zero.
  pose proof (rnd_err_17 (q * S) ltac:(lra)) as Hp.
  assert (P0 : (0 <= rnd (q * S))%Q) by (apply rnd_nonneg; exact M0).
  assert (P1 : (rnd (q * S) <= 86400)%Q).
  { apply (rnd_le_Z _ 86400); [lia|]. exact M1. }
  pose proof (rnd_err_17 (1 - rnd (q * S)) ltac:(lra)) as Hd.
  split; lra.
Qed.

(** Conversion to [long]. *)

Lemma Qtrunc_floor (x : Q) : (0 <= x)%Q -> Qtrunc x = Qfloor x.
Proof.
  destruct x as [n d]. unfold Qle, Qtrunc, Qfloor. cbn. intros H.
  apply Z.quot_div_nonneg; lia.
Qed.

Lemma Qtrunc_ceiling (x : Q) : (x <= 0)%Q -> Qtrunc x = Qceiling x.
Proof.
  destruct x as [n d]. unfold Qle, Qtrunc, Qceiling, Qfloor. cbn. intros H.
  rewrite <- (Z.opp_involutive n) at 1.
  rewrite Z.quot_opp_l by discriminate.
  rewrite Z.quot_div_nonneg by lia. reflexivity.
Qed.

Lemma Qtrunc_mono (x y : Q) : (x <= y)%Q -> Qtrunc x <= Qtrunc y.
Proof.
  intros H.
  destruct (Qlt_le_dec x 0) as [Hx|Hx]; destruct (Qlt_le_dec y 0) as [Hy|Hy].
  - rewrite !Qtrunc_ceiling by lra. apply Qceiling_resp_le. exact H.
  - rewrite (Qtrunc_ceiling x), (Qtrunc_floor y) by lra.
    assert (Qceiling x <= Qceiling 0) by (apply Qceiling_resp_le; lra).
    assert (Qfloor 0 <= Qfloor y) by (apply Qfloor_resp_le; lra).
    change (Qceiling 0) with 0 in *. change (Qfloor 0) with 0 in *. lia.
  - exfalso. lra.
  - rewrite !Qtrunc_floor by lra. apply Qfloor_resp_le. exact H.
Qed.

Lemma Qtrunc_near (x : Q) :
  (inject_Z (Qtrunc x) - 1 < x < inject_Z (Qtrunc x) + 1)%Q.
Proof.
  destruct (Qlt_le_dec x 0) as [Hx|Hx].
  - rewrite Qtrunc_ceiling by lra.
    pose proof (Qle_ceiling x). pose proof (Qceiling_lt x) as H1.
    rewrite inject_Z_sub in H1.
    change (inject_Z 1) with 1%Q in H1. split; lra.
  - rewrite Qtrunc_floor by lra.
    pose proof (Qfloor_le x). pose proof (Qlt_floor x) as H1.
    rewrite inject_Z_plus in H1. change (inject_Z 1) with 1%Q in H1. split; lra.
Qed.

Lemma Qtrunc_Z (n : Z) : Qtrunc (inject_Z n) = n.
Proof. unfold Qtrunc, inject_Z. cbn. apply Z.quot_1_r. Qed.

Lemma Qtrunc_eq (x y : Q) : (x == y)%Q -> Qtrunc x = Qtrunc y.
Proof. intros H. apply Z.le_antisymm; apply Qtrunc_mono; lra. Qed.


Lemma Qtrunc_gt_Z (x : Q) (n : Z) : (inject_Z n < x)%Q -> n <= -1 -> n < Qtrunc x.
Proof.
  intros H Hn.
  destruct (Qlt_le_dec 0 x) as [Hx|Hx].
  - assert (Qtrunc 0 <= Qtrunc x) by (apply Qtrunc_mono; lra).
    change (Qtrunc 0) with 0 in *. lia.
  - rewrite Qtrunc_ceiling by exact Hx.
    pose proof (Qle_ceiling x).
    rewrite Zlt_Qlt. lra.
Qed.

(** The microseconds after the correction. *)

Section Slewed.
Variables (d : Q) (u : Z).
Hypothesis d_range : (0 <= d <= 1)%Q.
Hypothesis u_range : 0 <= u < 1000000.

Lemma scaled_bounds :
  (0 <= fmul d 1e6 <= 1000000)%Q
  /\ (d * 1000000 - (1 # 8589934592) <= fmul d 1e6
      <= d * 1000000 + (1 # 8589934592))%Q.
Proof.
  unfold fmul. rewrite million.
  assert (H0 : (0 <= d * 1000000)%Q) by lra.
  assert (H1 : (d * 1000000 <= 1000000)%Q) by lra.
  split; [split|].
  - apply rnd_nonneg. exact H0.
  - apply (rnd_le_Z _ 1000000); [lia|]. exact H1.
  - apply rnd_err_20. lra.
Qed.

Lemma slewed_arg :
  (inject_Z u - 1000000 <= fsub (double_of_long u) (fmul d 1e6) <= inject_Z u)%Q
  /\ (inject_Z u - d * 1000000 - (1 # 4294967296)
      <= fsub (double_of_long u) (fmul d 1e6)
      <= inject_Z u - d * 1000000 + (1 # 4294967296))%Q.
Proof.
  destruct scaled_bounds as [[Y0 Y1] Ye].
  set (y := fmul d 1e6) in *.
  unfold fsub, double_of_long. rewrite (rnd_Z u) by lia.
  pose proof (inject_Z_le0 u ltac:(lia)) as U0.
  assert (U1 : (inject_Z u <= 999999)%Q).
  { change 999999%Q with (inject_Z 999999). rewrite <- Zle_Qle. lia. }
  split; [split|].
  - assert (E : (inject_Z u - 1000000 == inject_Z (u - 1000000))%Q)
      by (rewrite inject_Z_sub; reflexivity).
    rewrite E. apply rnd_ge_Z; [lia|]. rewrite inject_Z_sub.
    change (inject_Z 1000000) with 1000000%Q. lra.
  - apply rnd_le_Z; [lia | lra].
  - pose proof (rnd_err_20 (inject_Z u - y) ltac:(lra)). lra.
Qed.

Lemma slewed_usec_range : u - 1000000 <= slewed_usec d u <= u.
Proof.
  destruct slewed_arg as [[A0 A1] _]. unfold slewed_usec.
  split.
  - rewrite <- (Qtrunc_Z (u - 1000000)). apply Qtrunc_mono.
    rewrite inject_Z_sub. change (inject_Z 1000000) with 1000000%Q. exact A0.
  - rewrite <- (Qtrunc_Z u) at 2. apply Qtrunc_mono. exact A1.
Qed.

Lemma slewed_usec_err (c : Q) :
  (c - (1 # 8589934592) <= d <= c + (1 # 8589934592))%Q ->
  (inject_Z u - c * 1000000 - 1 - (1 # 4096) < inject_Z (slewed_usec d u)
   < inject_Z u - c * 1000000 + 1 + (1 # 4096))%Q.
Proof.
  intros Hc. destruct slewed_arg as [_ Ae]. unfold slewed_usec.
  pose proof (Qtrunc_near (fsub (double_of_long u) (fmul d 1e6))) as Hn.
  split; lra.
Qed.

End Slewed.

Lemma slewed_usec_zero (u : Z) : - 2 ^ 53 < u < 2 ^ 53 -> slewed_usec 0.0 u = u.
Proof.
  intros Hu. unfold slewed_usec, fsub, fmul, double_of_long.
  rewrite <- (Qtrunc_Z u) at 2. apply Qtrunc_eq.
  assert (E : (0.0 * 1e6 == 0)%Q) by reflexivity.
  rewrite E, rnd_0, (rnd_Z u) by exact Hu.
  assert (E2 : (inject_Z u - 0 == inject_Z u)%Q) by lra.
  rewrite E2. apply rnd_Z. exact Hu.
Qed.

(** The correction only decreases as the day goes on. *)





(** ** The monadic code returns the pure step *)

Section Iteration.
Context {libc : Libc}.

Lemma get_tai_offset_value (utc : Z) (w : world) :
  get_tai_offset utc w = (Val (offset_value utc), mk_world None (screen w)).
Proof. reflexivity. Qed.

Lemma recompute_recomputed (sample : timeval) (l : locals) (w : world) :
  recompute sample l w =
  (Val (recomputed sample l),
   mk_world (if recompute_due sample l then None else TZ w) (screen w)).
Proof.
  unfold recompute, recomputed.
  destruct (recompute_due sample l); [reflexivity|].
  destruct w; reflexivity.
Qed.

Lemma print_time_emits debug line col label tv local lp (w : world) :
  exists e, print_time debug line col label tv local lp w
            = (Val tt, mk_world (TZ w) (screen w ++ [e])).
Proof.
  unfold print_time, bind, call_localtime, call_gmtime, emit.
  destruct local, debug; simpl; eexists; reflexivity.
Qed.

Lemma iteration_clock_step (debug : bool) (p : poll) (l : locals) (w : world) :
  0 <= adjtimex_ret p ->
  let sample := read_time (timex p) in
  let l1 := detect_step (diff_tv sample (last_tv_system l)) l in
  exists evs,
    iteration debug p l w =
    (Val (clock_step (timex p) l),
     mk_world (if recompute_due sample l1 then None else TZ w) (screen w ++ evs))
    /\ ~ In Endwin evs.
Proof.
  intros Hret sample l1.
  assert (Hlt : (adjtimex_ret p <? 0) = false) by (apply Z.ltb_ge; exact Hret).
  unfold iteration, clock_step.
  fold sample. fold l1.
  destruct (assemble (timex_tick (timex p)) sample (recomputed sample l1))
    as [l3 f] eqn:Hasm.
  destruct w as [tz scr].
  unfold bind, when, emit, ret, print_time, call_gmtime, call_localtime.
  destruct debug; cbn [negb TZ screen fst snd]; rewrite Hlt;
    rewrite recompute_recomputed; cbn [TZ screen]; rewrite Hasm;
    cbv [bind when emit ret print_time call_gmtime call_localtime];
    cbn [negb TZ screen];
    repeat rewrite <- app_assoc; cbn [app];
    (eexists; split; [reflexivity|]);
    cbn [In]; intuition discriminate.
Qed.

End Iteration.

(** ** What the slew leaves alone *)

Lemma arm_keeps (utc : timeval) (l : locals) :
  tai_offset (arm utc l) = tai_offset l
  /\ last_tai_offset (arm utc l) = last_tai_offset l
  /\ leap (arm utc l) = leap l
  /\ step (arm utc l) = step l
  /\ tick (arm utc l) = tick l
  /\ slew_tick (arm utc l) = slew_tick l
  /\ last_tv_system (arm utc l) = last_tv_system l.
Proof.
  unfold arm. destruct (leap l && _); cbn; repeat split; reflexivity.
Qed.

Lemma slew_block_keeps (k : Z) (utc : timeval) (l : locals) :
  tai_offset (fst (slew_block k utc l)) = tai_offset l
  /\ last_tai_offset (fst (slew_block k utc l)) = last_tai_offset l
  /\ leap (fst (slew_block k utc l)) = leap l
  /\ step (fst (slew_block k utc l)) = step l
  /\ last_tv_system (fst (slew_block k utc l)) = last_tv_system l.
Proof.
  unfold slew_block.
  destruct (slew l); [destruct (slew_done k utc l)|]; cbn; repeat split; reflexivity.
Qed.

Lemma assemble_fst (k : Z) (sample : timeval) (l : locals) :
  fst (assemble k sample l) =
  fst (slew_block k sample
         (arm sample (mk_locals (tai_offset l) (last_tai_offset l) (leap l)
                        (step l) (slew l) (tick l) (slew_tick l) sample))).
Proof.
  unfold assemble. destruct (slew_block _ _ _). reflexivity.
Qed.

Lemma assemble_frame (k : Z) (sample : timeval) (l : locals) :
  let r := slew_block k sample
             (arm sample (mk_locals (tai_offset l) (last_tai_offset l) (leap l)
                            (step l) (slew l) (tick l) (slew_tick l) sample)) in
  snd (assemble k sample l) =
  mk_frame sample (snd r)
    (mk_timeval (tv_sec (snd r) + tai_offset l) (tv_usec (snd r))).
Proof.
  intros r. unfold assemble. fold r.
  pose proof (slew_block_keeps k sample
    (arm sample (mk_locals (tai_offset l) (last_tai_offset l) (leap l)
                   (step l) (slew l) (tick l) (slew_tick l) sample))) as (H & _).
  fold r in H. destruct r as [l' utc]. cbn in *.
  rewrite H. destruct (arm_keeps sample (mk_locals (tai_offset l)
    (last_tai_offset l) (leap l) (step l) (slew l) (tick l) (slew_tick l) sample))
    as (-> & _). reflexivity.
Qed.

Lemma assemble_keeps (k : Z) (sample : timeval) (l : locals) :
  tai_offset (fst (assemble k sample l)) = tai_offset l
  /\ last_tai_offset (fst (assemble k sample l)) = last_tai_offset l
  /\ leap (fst (assemble k sample l)) = leap l
  /\ step (fst (assemble k sample l)) = step l
  /\ last_tv_system (fst (assemble k sample l)) = sample.
Proof.
  rewrite assemble_fst.
  set (l0 := mk_locals _ _ _ _ _ _ _ sample).
  destruct (slew_block_keeps k sample (arm sample l0)) as (-> & -> & -> & -> & ->).
  destruct (arm_keeps sample l0) as (-> & -> & -> & -> & _ & _ & ->).
  repeat split; reflexivity.
Qed.

Lemma detect_step_keeps (diff : Q) (l : locals) :
  tai_offset (detect_step diff l) = tai_offset l
  /\ last_tai_offset (detect_step diff l) = last_tai_offset l
  /\ tick (detect_step diff l) = tick l
  /\ slew_tick (detect_step diff l) = slew_tick l
  /\ last_tv_system (detect_step diff l) = last_tv_system l.
Proof.
  unfold detect_step. destruct (classify diff); cbn; repeat split; reflexivity.
Qed.

(** ** What one iteration computes *)

Section ClockStep.
Context {libc : Libc}.

Lemma iteration_returns (debug : bool) (p : poll) (l : locals) (w : world) :
  0 <= adjtimex_ret p ->
  exists w',
    iteration debug p l w
    = (Val (fst (clock_step (timex p) l), snd (clock_step (timex p) l)), w')
    /\ TZ w' = (if recompute_due (read_time (timex p))
                    (detect_step (diff_tv (read_time (timex p)) (last_tv_system l)) l)
               then None else TZ w).
Proof.
  intros Hret.
  destruct (iteration_clock_step debug p l w Hret) as (evs & Hit & _).
  eexists. split.
  - rewrite <- surjective_pairing. exact Hit.
  - reflexivity.
Qed.

Lemma clock_step_tai_offset (tx : timex_t) (l : locals) :
  tai_offset (fst (clock_step tx l))
  = tai_offset (recomputed (read_time tx)
                  (detect_step (diff_tv (read_time tx) (last_tv_system l)) l)).
Proof. unfold clock_step. apply assemble_keeps. Qed.

Lemma clock_step_last_tai_offset (tx : timex_t) (l : locals) :
  last_tai_offset (fst (clock_step tx l))
  = last_tai_offset (recomputed (read_time tx)
                       (detect_step (diff_tv (read_time tx) (last_tv_system l)) l)).
Proof. unfold clock_step. apply assemble_keeps. Qed.

Lemma clock_step_leap (tx : timex_t) (l : locals) :
  leap (fst (clock_step tx l))
  = leap (recomputed (read_time tx)
            (detect_step (diff_tv (read_time tx) (last_tv_system l)) l)).
Proof. unfold clock_step. apply assemble_keeps. Qed.

Lemma clock_step_utc (tx : timex_t) (l : locals) :
  tv_utc (snd (clock_step tx l))
  = snd (slew_block (timex_tick tx) (read_time tx)
           (arm (read_time tx)
              (mk_locals
                 (tai_offset (recomputed (read_time tx)
                    (detect_step (diff_tv (read_time tx) (last_tv_system l)) l)))
                 (last_tai_offset (recomputed (read_time tx)
                    (detect_step (diff_tv (read_time tx) (last_tv_system l)) l)))
                 (leap (recomputed (read_time tx)
                    (detect_step (diff_tv (read_time tx) (last_tv_system l)) l)))
                 (step (recomputed (read_time tx)
                    (detect_step (diff_tv (read_time tx) (last_tv_system l)) l)))
                 (slew (recomputed (read_time tx)
                    (detect_step (diff_tv (read_time tx) (last_tv_system l)) l)))
                 (tick (recomputed (read_time tx)
                    (detect_step (diff_tv (read_time tx) (last_tv_system l)) l)))
                 (slew_tick (recomputed (read_time tx)
                    (detect_step (diff_tv (read_time tx) (last_tv_system l)) l)))
                 (read_time tx)))).
Proof.
  unfold clock_step.
  pose proof (assemble_frame (timex_tick tx) (read_time tx)
    (recomputed (read_time tx)
       (detect_step (diff_tv (read_time tx) (last_tv_system l)) l))) as Hf.
  cbv zeta in Hf. rewrite Hf. reflexivity.
Qed.

Lemma clock_step_tai (tx : timex_t) (l : locals) :
  tv_sec (tv_tai (snd (clock_step tx l)))
  = tv_sec (tv_utc (snd (clock_step tx l))) + tai_offset (fst (clock_step tx l))
  /\ tv_usec (tv_tai (snd (clock_step tx l)))
     = tv_usec (tv_utc (snd (clock_step tx l))).
Proof.
  unfold clock_step.
  pose proof (assemble_frame (timex_tick tx) (read_time tx)
    (recomputed (read_time tx)
       (detect_step (diff_tv (read_time tx) (last_tv_system l)) l))) as Hf.
  cbv zeta in Hf. rewrite Hf.
  pose proof (assemble_keeps (timex_tick tx) (read_time tx)
    (recomputed (read_time tx)
       (detect_step (diff_tv (read_time tx) (last_tv_system l)) l))) as (Hk & _).
  rewrite Hk. cbn [tv_sec tv_usec tv_tai tv_utc]. split; reflexivity.
Qed.

End ClockStep.

(** ** The TAI offset *)

(** C1: for every instant [t] whose offset fits an [int], [get_tai_offset t]
    returns the epoch seconds of the calendar date/time of [t] read under
    the leap-second-free rule and read back under the leap-second-aware
    rule, minus [t], plus 10 (whatever TZ was before; TZ is unset
    afterwards).  In every iteration the offset is recomputed exactly when a
    backward step is pending, and then at the sampled second plus one, or
    when the whole second of the sample differs from that of the previous
    sample, and then at the sampled second; otherwise [tai_offset] and TZ
    are left as they were. *)
Theorem tai_offset_computed_and_recomputed {libc : Libc}
    (t : Z) (debug : bool) (p : poll) (l : locals) (w : world) :
  int_range (computeOffset t) ->
  0 <= adjtimex_ret p ->
  get_tai_offset t w = (Val (computeOffset t), mk_world None (screen w))
  /\
  let sample := read_time (timex p) in
  let pending := step (detect_step (diff_tv sample (last_tv_system l)) l) in
  let changed := negb (tv_sec (last_tv_system l) =? tv_sec sample) in
  exists l' f w',
    iteration debug p l w = (Val (l', f), w') /\
    (pending = true ->
       (forall w0, fst (get_tai_offset (tv_sec sample + 1) w0) = Val (tai_offset l'))
       /\ TZ w' = None) /\
    (pending = false -> changed = true ->
       (forall w0, fst (get_tai_offset (tv_sec sample) w0) = Val (tai_offset l'))
       /\ TZ w' = None) /\
    (pending = false -> changed = false ->
       tai_offset l' = tai_offset l /\ TZ w' = TZ w).
Proof.
  intros Hrange Hret. split.
  - rewrite get_tai_offset_value. unfold offset_value.
    fold (computeOffset t). rewrite (to_int_id _ Hrange). reflexivity.
  - cbv zeta.
    destruct (iteration_returns debug p l w Hret) as (w' & Hit & Htz).
    exists (fst (clock_step (timex p) l)), (snd (clock_step (timex p) l)), w'.
    split; [exact Hit|].
    rewrite Htz, clock_step_tai_offset.
    unfold recomputed, recompute_due.
    destruct (detect_step_keeps (diff_tv (read_time (timex p)) (last_tv_system l)) l)
      as (Htai & _ & _ & _ & Hlast).
    rewrite Hlast.
    split; [|split].
    + intros Hp. rewrite Hp. cbn [orb tai_offset Z.b2z].
      split; [|reflexivity].
      intros w0. rewrite get_tai_offset_value. reflexivity.
    + intros Hp Hc. rewrite Hp, Hc. cbn [orb tai_offset Z.b2z].
      split; [|reflexivity].
      intros w0. rewrite get_tai_offset_value, Z.add_0_r. reflexivity.
    + intros Hp Hc. rewrite Hp, Hc. cbn [orb].
      split; [exact Htai | reflexivity].
Qed.

(** The witness of C1: 2017-01-01 00:00:00 UTC on the reference library. *)
Lemma tai_offset_computed_and_recomputed_witness :
  int_range (computeOffset (libc := Sample.libc2017) Sample.T2017)
  /\ 0 <= adjtimex_ret (Sample.answer Sample.T2017 0 10000)
  /\ get_tai_offset (libc := Sample.libc2017) Sample.T2017 (mk_world None [])
     = (Val 37, mk_world None []).
Proof.
  assert (H1 : int_range (computeOffset (libc := Sample.libc2017) Sample.T2017))
    by (vm_compute; split; [discriminate | reflexivity]).
  assert (H2 : 0 <= adjtimex_ret (Sample.answer Sample.T2017 0 10000))
    by (vm_compute; discriminate).
  split; [exact H1 | split; [exact H2 |]].
  exact (proj1 (tai_offset_computed_and_recomputed (libc := Sample.libc2017)
                  Sample.T2017 false (Sample.answer Sample.T2017 0 10000)
                  init_locals (mk_world None []) H1 H2)).
Defined.

(** ** The leap flag *)

(** C2, as the code has it: in every iteration in which the TAI offset is
    recomputed, [leap] is set true exactly when the previously recorded
    [last_tai_offset] is not 0 and the newly computed [tai_offset] exceeds
    it, and false otherwise; the new offset is recorded. *)
Theorem leap_set_on_recompute {libc : Libc}
    (debug : bool) (p : poll) (l : locals) (w : world) :
  0 <= adjtimex_ret p ->
  recompute_due (read_time (timex p))
    (detect_step (diff_tv (read_time (timex p)) (last_tv_system l)) l) = true ->
  exists l' f w',
    iteration debug p l w = (Val (l', f), w') /\
    (leap l' = true <->
       last_tai_offset l <> 0 /\ last_tai_offset l < tai_offset l') /\
    last_tai_offset l' = tai_offset l'.
Proof.
  intros Hret Hdue.
  destruct (iteration_returns debug p l w Hret) as (w' & Hit & _).
  exists (fst (clock_step (timex p) l)), (snd (clock_step (timex p) l)), w'.
  split; [exact Hit|].
  rewrite clock_step_leap, clock_step_tai_offset, clock_step_last_tai_offset.
  unfold recomputed. rewrite Hdue.
  cbn [leap tai_offset last_tai_offset].
  destruct (detect_step_keeps (diff_tv (read_time (timex p)) (last_tv_system l)) l)
    as (_ & Hlast & _).
  rewrite Hlast.
  split; [|reflexivity].
  rewrite andb_true_iff, negb_true_iff, Z.eqb_neq, Z.ltb_lt.
  reflexivity.
Qed.

Lemma leap_set_on_recompute_witness :
  exists l' f w',
    iteration (libc := Sample.libc2017) false (Sample.answer Sample.T2017 0 10000)
      (mk_locals 36 36 false false false 10000 0
         (mk_timeval (Sample.T2017 - 1) 950000))
      (mk_world None []) = (Val (l', f), w') /\
    (leap l' = true <-> 36 <> 0 /\ 36 < tai_offset l') /\
    last_tai_offset l' = tai_offset l'.
Proof.
  apply (leap_set_on_recompute (libc := Sample.libc2017) false
           (Sample.answer Sample.T2017 0 10000)
           (mk_locals 36 36 false false false 10000 0
              (mk_timeval (Sample.T2017 - 1) 950000))
           (mk_world None [])).
  - vm_compute; discriminate.
  - vm_compute; reflexivity.
Defined.

(** C2 as stated fails at the first recomputation after startup: the
    recorded offset is still 0, the computed offset 37 exceeds it, and
    [leap] is set false. *)
Lemma leap_not_set_at_startup :
  let a := Sample.answer Sample.T2017 0 10000 in
  let o := main (libc := Sample.libc2017) None None [a] in
  recompute_due (read_time (timex a))
    (detect_step (diff_tv (read_time (timex a)) (last_tv_system init_locals))
       init_locals) = true
  /\ last_tai_offset init_locals = 0
  /\ tai_offset (final o) = 37
  /\ last_tai_offset init_locals < tai_offset (final o)
  /\ leap (final o) = false.
Proof. vm_compute. repeat split; reflexivity. Qed.

(** ** Step detection *)

Lemma classify_backward (d : Q) :
  classify d = BACKWARD_STEP <-> (-1 < d /\ d < -0.8)%Q.
Proof.
  unfold classify.
  destruct (Qlt_bool (-1.0) d && Qlt_bool d (-0.8)) eqn:E.
  - apply andb_true_iff in E. rewrite !Qlt_bool_iff in E.
    split; [intros _; split; lra | reflexivity].
  - split; [destruct (_ || _); discriminate|].
    intros [H1 H2].
    assert (H1' : Qlt_bool (-1.0) d = true) by (apply Qlt_bool_iff; lra).
    assert (H2' : Qlt_bool d (-0.8) = true) by (apply Qlt_bool_iff; lra).
    rewrite H1', H2' in E. discriminate.
Qed.

Lemma classify_discontinuity (d : Q) :
  classify d = DISCONTINUITY <-> (1 < d \/ d < -1)%Q.
Proof.
  unfold classify.
  destruct (Qlt_bool (-1.0) d && Qlt_bool d (-0.8)) eqn:E.
  - apply andb_true_iff in E. rewrite !Qlt_bool_iff in E.
    split; [discriminate|]. intros [H|H]; lra.
  - destruct (Qlt_bool 1.0 d || Qlt_bool d (-1.0)) eqn:E'.
    + apply orb_true_iff in E'. rewrite !Qlt_bool_iff in E'.
      split; [intros _; destruct E'; [left | right]; lra | reflexivity].
    + split; [discriminate|].
      apply orb_false_iff in E'. rewrite !Qlt_bool_false_iff in E'.
      intros [H|H]; lra.
Qed.

Lemma classify_normal (d : Q) :
  classify d = NORMAL <-> (-0.8 <= d <= 1 \/ d == -1)%Q.
Proof.
  pose proof (classify_backward d) as HB.
  pose proof (classify_discontinuity d) as HD.
  destruct (classify d) eqn:E.
  - split; [discriminate|]. destruct HB as [HB _]. specialize (HB eq_refl). lra.
  - split; [discriminate|]. destruct HD as [HD _]. specialize (HD eq_refl). lra.
  - split; [|reflexivity]. intros _.
    destruct (Qlt_le_dec d (-0.8)) as [H1|H1].
    + destruct (Qlt_le_dec (-1) d) as [H2|H2].
      * destruct HB as [_ HB]. discriminate HB. split; assumption.
      * destruct (Qlt_le_dec d (-1)) as [H3|H3].
        -- destruct HD as [_ HD]. discriminate HD. right; assumption.
        -- right. lra.
    + destruct (Qlt_le_dec 1 d) as [H2|H2].
      * destruct HD as [_ HD]. discriminate HD. left; assumption.
      * left. lra.
Qed.

(** C4, as the code has it: for every pair of consecutive samples the delta
    (current - previous, in seconds) classifies as BACKWARD_STEP exactly
    when it lies in the open interval (-1.0, -0.8), as DISCONTINUITY exactly
    when it is greater than 1.0 or less than -1.0, and as NORMAL otherwise,
    in which case no variable is changed; -0.9 is a backward step, the
    boundary -0.8 is normal, +1.5 and -1.5 are discontinuities and 0.05 is
    normal. *)
Theorem step_classification (current previous : timeval) :
  let delta := diff_tv current previous in
  (delta == (inject_Z (tv_sec current) + inject_Z (tv_usec current) / 1e6)
            - (inject_Z (tv_sec previous) + inject_Z (tv_usec previous) / 1e6))%Q
  /\ (classify delta = BACKWARD_STEP <-> (-1 < delta /\ delta < -0.8)%Q)
  /\ (classify delta = DISCONTINUITY <-> (1 < delta \/ delta < -1)%Q)
  /\ (classify delta = NORMAL <->
        ~ (-1 < delta /\ delta < -0.8)%Q /\ ~ (1 < delta \/ delta < -1)%Q)
  /\ (forall l, classify delta = NORMAL -> detect_step delta l = l)
  /\ classify (-0.9) = BACKWARD_STEP
  /\ classify (-0.8) = NORMAL
  /\ classify 1.5 = DISCONTINUITY
  /\ classify (-1.5) = DISCONTINUITY
  /\ classify 0.05 = NORMAL.
Proof.
  intros delta. split; [|split; [|split; [|split; [|split]]]].
  - unfold delta, diff_tv. rewrite !inject_Z_sub. field.
    intro H; vm_compute in H; discriminate H.
  - apply classify_backward.
  - apply classify_discontinuity.
  - rewrite classify_normal. split.
    + intros H. split; intro; lra.
    + intros [H1 H2].
      destruct (Qlt_le_dec delta (-0.8)) as [Ha|Ha];
        destruct (Qlt_le_dec (-1) delta) as [Hb|Hb];
        destruct (Qlt_le_dec 1 delta) as [Hc|Hc];
        destruct (Qlt_le_dec delta (-1)) as [Hd|Hd];
        try (exfalso; apply H1; split; assumption);
        try (exfalso; apply H2; left; assumption);
        try (exfalso; apply H2; right; assumption);
        try (left; lra); right; lra.
  - intros l H. unfold detect_step. rewrite H. reflexivity.
  - repeat split; reflexivity.
Qed.

(** C4 as stated fails on the boundary: two samples exactly 0.8 s apart,
    the later one first, have a delta in (-1.0, -0.8] and are not
    classified as a backward step, in exact arithmetic and in binary64. *)
Lemma step_boundary_is_normal :
  let current := mk_timeval 100 100000 in
  let previous := mk_timeval 100 900000 in
  (-1 < diff_tv current previous /\ diff_tv current previous <= -0.8)%Q
  /\ classify (diff_tv current previous) = NORMAL
  /\ classify (diff_tv current previous) <> BACKWARD_STEP
  /\ Binary64.classify (Binary64.diff_tv current previous) = NORMAL
  /\ Binary64.classify
       (Binary64.diff_tv (mk_timeval 100 500000) (mk_timeval 101 300000))
     = NORMAL.
Proof.
  split; [|split; [|split; [|split]]].
  - split; vm_compute; [reflexivity | discriminate].
  - reflexivity.
  - discriminate.
  - vm_compute. reflexivity.
  - vm_compute. reflexivity.
Qed.

(** C3, as the code has it: in every iteration whose delta is classified as
    a backward step (delta in the open interval (-1.0, -0.8)), the detector
    sets [step] to true and clears [slew], whatever value [slew] had; the
    other variables are unchanged. *)
Theorem backward_step_sets_step_clears_slew
    (current previous : timeval) (l : locals) :
  (-1 < diff_tv current previous /\ diff_tv current previous < -0.8)%Q ->
  let l' := detect_step (diff_tv current previous) l in
  step l' = true /\ slew l' = false /\ leap l' = leap l
  /\ tai_offset l' = tai_offset l /\ last_tai_offset l' = last_tai_offset l
  /\ tick l' = tick l /\ slew_tick l' = slew_tick l
  /\ last_tv_system l' = last_tv_system l.
Proof.
  intros H l'. apply classify_backward in H.
  unfold l', detect_step. rewrite H. cbn. repeat split; reflexivity.
Qed.

Lemma backward_step_sets_step_clears_slew_witness :
  let l' := detect_step
              (diff_tv (mk_timeval 1500000000 0) (mk_timeval 1500000000 900000))
              Sample.slewing in
  step l' = true /\ slew l' = false /\ leap l' = leap Sample.slewing
  /\ tai_offset l' = tai_offset Sample.slewing
  /\ last_tai_offset l' = last_tai_offset Sample.slewing
  /\ tick l' = tick Sample.slewing /\ slew_tick l' = slew_tick Sample.slewing
  /\ last_tv_system l' = last_tv_system Sample.slewing.
Proof.
  apply (backward_step_sets_step_clears_slew
           (mk_timeval 1500000000 0) (mk_timeval 1500000000 900000)
           Sample.slewing).
  split; vm_compute; reflexivity.
Defined.

(** C3 as stated fails: a sample 0.9 s before the previous one, taken while
    the slew is active, is a backward step, and [slew] is false after the
    classification although it was true before. *)
Lemma backward_step_changes_slew :
  let delta := diff_tv (mk_timeval 1500000000 0) (last_tv_system Sample.slewing) in
  (delta == -0.9)%Q
  /\ classify delta = BACKWARD_STEP
  /\ Binary64.classify
       (Binary64.diff_tv (mk_timeval 1500000000 0) (last_tv_system Sample.slewing))
     = BACKWARD_STEP
  /\ slew Sample.slewing = true
  /\ slew (detect_step delta Sample.slewing) = false
  /\ slew (detect_step delta Sample.slewing) <> slew Sample.slewing.
Proof.
  cbv zeta. repeat split; try reflexivity; discriminate.
Qed.

(** ** Output assembly *)

(** C7: in every iteration, the whole seconds of the TAI instant are those
    of the UTC instant plus [tai_offset], and the microseconds of the TAI
    instant are those of the UTC instant. *)
Theorem tai_is_utc_plus_offset {libc : Libc}
    (debug : bool) (p : poll) (l : locals) (w : world) :
  0 <= adjtimex_ret p ->
  exists l' f w',
    iteration debug p l w = (Val (l', f), w') /\
    tv_sec (tv_tai f) = tv_sec (tv_utc f) + tai_offset l' /\
    tv_usec (tv_tai f) = tv_usec (tv_utc f).
Proof.
  intros Hret.
  destruct (iteration_returns debug p l w Hret) as (w' & Hit & _).
  exists (fst (clock_step (timex p) l)), (snd (clock_step (timex p) l)), w'.
  split; [exact Hit|].
  apply clock_step_tai.
Qed.

Lemma tai_is_utc_plus_offset_witness :
  exists l' f w',
    iteration (libc := Sample.libc2017) false
      (Sample.answer 1500000000 950000 9999) Sample.slewing (mk_world None [])
    = (Val (l', f), w') /\
    tv_sec (tv_tai f) = tv_sec (tv_utc f) + tai_offset l' /\
    tv_usec (tv_tai f) = tv_usec (tv_utc f).
Proof.
  apply (tai_is_utc_plus_offset (libc := Sample.libc2017) false
           (Sample.answer 1500000000 950000 9999) Sample.slewing
           (mk_world None [])).
  vm_compute. discriminate.
Defined.

(** ** The slew *)

Lemma borrow_normalizes (tv : timeval) :
  0 <= tv_usec (borrow tv)
  /\ micros (borrow tv) = micros tv
  /\ (tv_usec tv < 1000000 -> tv_usec (borrow tv) < 1000000)
  /\ (0 <= tv_usec tv -> borrow tv = tv).
Proof.
  funelim (borrow tv); clear Heqcall.
  - destruct H as (H1 & H2 & H3 & H4). cbn [tv_usec tv_sec] in *.
    repeat split.
    + exact H1.
    + rewrite H2. unfold micros. cbn. lia.
    + intros _. apply H3. lia.
    + intros Hge. lia.
  - repeat split; try lia; auto.
Qed.

Lemma Qtrunc_le (x : Q) (n : Z) : (x <= inject_Z n)%Q -> Qtrunc x <= n.
Proof.
  destruct x as [a d]. unfold Qle, Qtrunc, inject_Z. cbn. intros H.
  rewrite Z.mul_1_r in H.
  rewrite <- (Z.quot_mul n (Zpos d)) by discriminate.
  apply Z.quot_le_mono; lia.
Qed.

Lemma Qtrunc_ge (x : Q) (n : Z) : (inject_Z n <= x)%Q -> n <= Qtrunc x.
Proof.
  destruct x as [a d]. unfold Qle, Qtrunc, inject_Z. cbn. intros H.
  rewrite Z.mul_1_r in H.
  rewrite <- (Z.quot_mul n (Zpos d)) by discriminate.
  apply Z.quot_le_mono; lia.
Qed.

Lemma million_eq : (1e6 == inject_Z 1000000)%Q.
Proof. reflexivity. Qed.

Lemma correction_nonneg (k : Z) (utc : timeval) (l : locals) :
  (0 <= correction k utc l)%Q.
Proof.
  unfold correction, slew_done.
  destruct (Qle_bool (slew_diff k utc l) 0.0) eqn:E; cbn [orb].
  - lra.
  - destruct (_ <? k); [lra|].
    destruct (Qlt_le_dec 0 (slew_diff k utc l)) as [H|H].
    + lra.
    + assert (E' : Qle_bool (slew_diff k utc l) 0.0 = true)
        by (apply Qle_bool_iff; lra).
      congruence.
Qed.

Lemma slewed_usec_le (d : Q) (u : Z) :
  (0 <= d)%Q -> - 2 ^ 53 < u < 2 ^ 53 -> slewed_usec d u <= u.
Proof.
  intros Hd Hu. unfold slewed_usec, fsub, fmul, double_of_long.
  apply Qtrunc_le. apply rnd_le_Z; [exact Hu|].
  rewrite (rnd_Z u) by exact Hu.
  assert (0 <= rnd (d * 1e6))%Q.
  { apply rnd_nonneg. apply Qmult_le_0_compat; [exact Hd | discriminate]. }
  lra.
Qed.

Lemma slew_block_usec (k : Z) (utc : timeval) (l : locals) :
  0 <= tv_usec utc < 1000000 ->
  0 <= tv_usec (snd (slew_block k utc l)) < 1000000.
Proof.
  intros Hu. unfold slew_block.
  destruct (slew l); cbn [snd]; [|exact Hu].
  pose proof (slewed_usec_le (correction k utc l) (tv_usec utc)
                (correction_nonneg k utc l) ltac:(lia)) as Hle.
  destruct (borrow_normalizes
              (mk_timeval (tv_sec utc)
                 (slewed_usec (correction k utc l) (tv_usec utc))))
    as (H1 & _ & H3 & _).
  cbn [tv_usec] in H3. split; [exact H1|]. apply H3. lia.
Qed.

(** C8: in every iteration whose sampled microseconds are in
    [0, 1000000), with the slew active or not, the UTC microseconds handed
    to the display after the correction is subtracted and the borrow loop
    has run are in [0, 1000000).  The kernel tick is taken to be positive
    and to fit an [int], as the kernel reports it: with a tick of 0 the
    program would divide by zero. *)
Theorem displayed_microseconds_normalized {libc : Libc}
    (debug : bool) (p : poll) (l : locals) (w : world) :
  0 <= adjtimex_ret p ->
  0 < timex_tick (timex p) < 2 ^ 31 ->
  0 <= tv_usec (read_time (timex p)) < 1000000 ->
  exists l' f w',
    iteration debug p l w = (Val (l', f), w') /\
    0 <= tv_usec (tv_utc f) < 1000000.
Proof.
  intros Hret _ Hu.
  destruct (iteration_returns debug p l w Hret) as (w' & Hit & _).
  exists (fst (clock_step (timex p) l)), (snd (clock_step (timex p) l)), w'.
  split; [exact Hit|].
  rewrite clock_step_utc.
  apply slew_block_usec. exact Hu.
Qed.

Lemma displayed_microseconds_normalized_witness :
  exists l' f w',
    iteration (libc := Sample.libc2017) false
      (Sample.answer 1500000001 10000 9999) Sample.slewing (mk_world None [])
    = (Val (l', f), w') /\
    0 <= tv_usec (tv_utc f) < 1000000.
Proof.
  apply (displayed_microseconds_normalized (libc := Sample.libc2017) false
           (Sample.answer 1500000001 10000 9999) Sample.slewing
           (mk_world None [])).
  - vm_compute. discriminate.
  - vm_compute. split; reflexivity.
  - vm_compute. split; [discriminate | reflexivity].
Defined.

Lemma correction_spec_eq (t b sod u : Z) :
  (correction_spec t b (seconds_of_day (mk_timeval sod u))
   == 1 - inject_Z (t - b) / inject_Z b
          * (inject_Z (Z.rem sod 86400) + inject_Z u / 1000000))%Q.
Proof.
  unfold correction_spec, seconds_of_day. cbn [tv_sec tv_usec].
  rewrite million, one_point_zero. reflexivity.
Qed.


(** C5, as the code has it: whenever the slew branch runs, the base tick is
    the previous [slew_tick], replaced by the tick of this iteration when it
    was 0 or larger than that tick; [diff] is the binary64 value of
    1.0 - ((tick - base) / base) * secondsOfDayWithFraction, where [tick] is
    not the tick of this iteration but the variable that recorded the tick
    of the last iteration that ran without slew, and the slew branch leaves
    it alone.  For a normalized sample after the epoch and ticks with
    0 < base <= tick <= 2 * base that fit an [int], [diff] is within 2^-33
    of the rational value of that formula.  When [diff <= 0] or the tick of
    this iteration exceeds (tick + base) / 2 the correction is 0, [slew] and
    [slew_tick] are cleared and the displayed UTC instant is the sample;
    otherwise the correction is [diff], [slew_tick] is the base, and the
    displayed UTC instant (the sample with its microseconds reduced by the
    correction times 1000000 in binary64, converted back to [long] and
    renormalized by the borrow loop) differs by less than 1 + 2^-12
    microseconds from the sample minus the exact correction.  In both cases
    the displayed instant is never ahead of the sample and at most a second
    behind it, with normalized microseconds. *)
Theorem slew_correction_formula (kernel_tick : Z) (utc : timeval) (l : locals) :
  slew l = true ->
  0 < kernel_tick < 2 ^ 31 ->
  0 <= tv_sec utc -> 0 <= tv_usec utc < 1000000 ->
  let base := if (slew_tick l =? 0) || (kernel_tick <? slew_tick l)
              then to_int kernel_tick else slew_tick l in
  0 < base -> base <= tick l <= 2 * base -> tick l < 2 ^ 31 ->
  let exact := correction_spec (tick l) base (seconds_of_day utc) in
  let diff := slew_diff kernel_tick utc l in
  let l' := fst (slew_block kernel_tick utc l) in
  let utc' := snd (slew_block kernel_tick utc l) in
  tick l' = tick l
  /\ (exact - (1 # 8589934592) <= diff <= exact + (1 # 8589934592))%Q
  /\ ((diff <= 0)%Q \/ (tick l + base) ÷ 2 < kernel_tick ->
        (correction kernel_tick utc l == 0)%Q
        /\ slew l' = false /\ slew_tick l' = 0 /\ utc' = utc)
  /\ (~ ((diff <= 0)%Q \/ (tick l + base) ÷ 2 < kernel_tick) ->
        (correction kernel_tick utc l == diff)%Q
        /\ slew l' = true /\ slew_tick l' = base
        /\ (inject_Z (micros utc) - exact * 1000000 - 1 - (1 # 4096)
            < inject_Z (micros utc')
            < inject_Z (micros utc) - exact * 1000000 + 1 + (1 # 4096))%Q)
  /\ micros utc - 1000000 <= micros utc' <= micros utc
  /\ 0 <= tv_usec utc' < 1000000.
Proof.
  intros Hs Hk Hsec Hu base Hb Hbt Htk exact diff l' utc'.
  pose proof (Z.rem_bound_pos (tv_sec utc) 86400 Hsec ltac:(lia)) as Hsod.
  assert (Hbase : base_tick kernel_tick l = base) by reflexivity.
  assert (Herr : (exact - (1 # 8589934592) <= diff <= exact + (1 # 8589934592))%Q).
  { unfold diff, slew_diff, exact. rewrite Hbase.
    destruct utc as [sec usec]. rewrite correction_spec_eq.
    cbn [tv_sec tv_usec] in *.
    apply diff64_err; lia. }
  assert (Hle1 : (diff <= 1)%Q).
  { unfold diff, slew_diff. rewrite Hbase. apply diff64_le_1; lia. }
  assert (Hdone : slew_done kernel_tick utc l = true <->
                  ((diff <= 0)%Q \/ (tick l + base) ÷ 2 < kernel_tick)).
  { unfold slew_done. rewrite orb_true_iff, Qle_bool_iff, Z.ltb_lt, Hbase.
    fold diff. split; (intros [H|H]; [left; lra | right; exact H]). }
  assert (Hc01 : (0 <= correction kernel_tick utc l <= 1)%Q).
  { split; [apply correction_nonneg|].
    unfold correction. destruct (slew_done kernel_tick utc l); [lra | exact Hle1]. }
  assert (Hmic : micros utc'
                 = tv_sec utc * 1000000
                   + slewed_usec (correction kernel_tick utc l) (tv_usec utc)).
  { unfold utc', slew_block. rewrite Hs. cbn [snd].
    destruct (borrow_normalizes
                (mk_timeval (tv_sec utc)
                   (slewed_usec (correction kernel_tick utc l) (tv_usec utc))))
      as (_ & H & _).
    rewrite H. reflexivity. }
  pose proof (slewed_usec_range (correction kernel_tick utc l) (tv_usec utc)
                Hc01 Hu) as Hrange.
  split; [|split; [exact Herr|split; [|split; [|split]]]].
  - unfold l', slew_block. rewrite Hs. cbn [fst].
    destruct (slew_done kernel_tick utc l); reflexivity.
  - intros H. apply Hdone in H.
    unfold l', utc', slew_block, correction. rewrite Hs, H. cbn [fst snd slew slew_tick].
    split; [reflexivity|]. split; [reflexivity|]. split; [reflexivity|].
    rewrite slewed_usec_zero by lia.
    destruct (borrow_normalizes (mk_timeval (tv_sec utc) (tv_usec utc)))
      as (_ & _ & _ & Hid).
    rewrite Hid by (cbn; lia). destruct utc; reflexivity.
  - intros H.
    assert (E : slew_done kernel_tick utc l = false).
    { destruct (slew_done kernel_tick utc l) eqn:E; [|reflexivity].
      exfalso. apply H, Hdone. reflexivity. }
    assert (Ec : correction kernel_tick utc l = diff).
    { unfold correction. rewrite E. reflexivity. }
    split; [rewrite Ec; reflexivity|].
    split; [unfold l', slew_block; rewrite Hs, E; reflexivity|].
    split; [unfold l', slew_block; rewrite Hs, E; reflexivity|].
    rewrite Hmic, Ec.
    assert (Hd0 : (0 <= diff <= 1)%Q).
    { rewrite <- Ec. exact Hc01. }
    pose proof (slewed_usec_err diff (tv_usec utc) Hd0 Hu exact Herr) as He.
    unfold micros. rewrite !inject_Z_plus, !inject_Z_mult.
    split; lra.
  - rewrite Hmic. unfold micros. lia.
  - apply slew_block_usec. exact Hu.
Qed.

Lemma slew_correction_formula_witness :
  let l := Sample.slewing in
  let utc := mk_timeval 1500000001 10000 in
  let exact := correction_spec 10000 9999 (seconds_of_day utc) in
  tick (fst (slew_block 9999 utc l)) = tick l
  /\ (exact - (1 # 8589934592) <= slew_diff 9999 utc l
      <= exact + (1 # 8589934592))%Q
  /\ snd (slew_block 9999 utc l) = mk_timeval 1500000000 970198.
Proof.
  pose proof (slew_correction_formula 9999 (mk_timeval 1500000001 10000)
                Sample.slewing eq_refl (conj eq_refl eq_refl)) as H.
  cbv zeta in H.
  destruct H as (H1 & H2 & _).
  - vm_compute. discriminate.
  - vm_compute. split; [discriminate | reflexivity].
  - reflexivity.
  - vm_compute. split; discriminate.
  - reflexivity.
  - split; [exact H1|]. split; [exact H2|].
    vm_compute. reflexivity.
Defined.

(** C5 as stated fails: in the third iteration of this run the slew is
    active, the tick of the iteration and the smallest tick since the slew
    armed are both 9999, so the formula with the current tick gives a
    correction of 1 and the displayed UTC microseconds 500000; the program,
    which uses the tick 10000 recorded before the slew, subtracts the
    binary64 value of 19997/19998 s and displays 500051. *)
Lemma correction_uses_recorded_tick :
  let T := Sample.T2017 in
  let a1 := Sample.answer (T - 1) 950000 10000 in
  let a2 := Sample.answer T 0 9999 in
  let a3 := Sample.answer T 500000 9999 in
  let before := final (main (libc := Sample.libc2017) None None [a1; a2]) in
  let o := main (libc := Sample.libc2017) None None [a1; a2; a3] in
  (slew before = true /\ tick before = 10000 /\ slew_tick before = 9999)
  /\ (correction_spec 9999 9999 (seconds_of_day (mk_timeval T 500000)) == 1)%Q
  /\ borrow (mk_timeval T (slewed_usec 1 500000)) = mk_timeval (T - 1) 500000
  /\ (correction_spec 10000 9999 (seconds_of_day (mk_timeval T 500000))
      == 19997 # 19998)%Q
  /\ ((19997 # 19998) - (1 # 8589934592)
      <= correction 9999 (mk_timeval T 500000) before
      <= (19997 # 19998) + (1 # 8589934592))%Q
  /\ List.map tv_utc (frames o)
     = [mk_timeval (T - 1) 950000; mk_timeval (T - 1) 0;
        mk_timeval (T - 1) 500051]
  /\ Binary64.slewed_usec 10000 9999 (mk_timeval T 500000) + 1000000 = 500051.
Proof.
  cbv zeta.
  split; [|split; [|split; [|split; [|split; [|split]]]]].
  - vm_compute. repeat split; reflexivity.
  - vm_compute. reflexivity.
  - vm_compute. reflexivity.
  - vm_compute. reflexivity.
  - split; vm_compute; discriminate.
  - vm_compute. reflexivity.
  - vm_compute. reflexivity.
Qed.

(** ** The loop and the ways out of it *)

Section Loop.
Context {libc : Libc}.

Lemma loop_app (debug : bool) (xs ys : list poll) :
  forall (l : locals) (fs : list frame) (w : world),
  loop debug (xs ++ ys) l fs w =
  match status (loop debug xs l fs w) with
  | None => loop debug ys (final (loop debug xs l fs w))
              (frames (loop debug xs l fs w)) (after (loop debug xs l fs w))
  | Some _ => loop debug xs l fs w
  end.
Proof.
  induction xs as [|p xs IH]; intros l fs w; [reflexivity|].
  cbn [app loop].
  destruct ((ch p =? ERR) || (ch p =? KEY_RESIZE)); [|reflexivity].
  destruct (iteration debug p l _) as [[[l' f]|s] w']; [apply IH | reflexivity].
Qed.

Lemma loop_keeps_running (debug : bool) (xs : list poll) :
  Forall keeps_running xs ->
  forall (l : locals) (fs : list frame) (w : world),
  status (loop debug xs l fs w) = None
  /\ (final (loop debug xs l fs w), frames (loop debug xs l fs w))
     = (fst (clock_run (List.map timex xs) l),
        fs ++ snd (clock_run (List.map timex xs) l))
  /\ (~ In Endwin (screen w) -> ~ In Endwin (screen (after (loop debug xs l fs w)))).
Proof.
  induction 1 as [|p xs [Hch Hret] _ IH]; intros l fs w.
  - cbn. rewrite app_nil_r. auto.
  - cbn [loop List.map clock_run].
    assert (E : (ch p =? ERR) || (ch p =? KEY_RESIZE) = true).
    { apply orb_true_iff. rewrite !Z.eqb_eq. exact Hch. }
    rewrite E.
    destruct (iteration_clock_step debug p l (snd (emit Getch w)) Hret)
      as (evs & Hit & Hno).
    cbv zeta in Hit. rewrite Hit.
    destruct (clock_step (timex p) l) as [l' f].
    specialize (IH l' (fs ++ [f])
      (mk_world
         (if recompute_due (read_time (timex p))
               (detect_step (diff_tv (read_time (timex p)) (last_tv_system l)) l)
          then None else TZ (snd (emit Getch w)))
         (screen (snd (emit Getch w)) ++ evs))).
    destruct IH as (IH1 & IH2 & IH3).
    destruct (clock_run (List.map timex xs) l') as [l'' fs'].
    split; [exact IH1|]. split.
    + rewrite IH2. cbn [fst snd]. rewrite <- app_assoc. reflexivity.
    + intros Hw. apply IH3. cbn [screen emit snd].
      rewrite !in_app_iff. cbn [In]. intuition discriminate.
Qed.

End Loop.

(** C10: the loop runs one iteration for every poll that returns no input
    or a resize event (the kernel query succeeding); the first poll that
    returns anything else, whatever the key, ends the loop right after that
    [getch], before the kernel is queried or anything is drawn; the screen
    is then closed with [endwin] unless in debug mode, and main returns 0. *)
Theorem keypress_ends_loop {libc : Libc}
    (argv1 tz : option string) (before : list poll) (key : poll) (rest : list poll) :
  Forall keeps_running before ->
  ch key <> ERR ->
  ch key <> KEY_RESIZE ->
  let running := main argv1 tz before in
  let o := main argv1 tz (before ++ key :: rest) in
  status running = None
  /\ List.length (frames running) = List.length before
  /\ status o = Some 0
  /\ final o = final running
  /\ frames o = frames running
  /\ TZ (after o) = TZ (after running)
  /\ screen (after o)
     = screen (after running)
       ++ Getch :: (if debug_mode argv1 then [] else [Endwin]).
Proof.
  intros Hrun He Hk running o.
  unfold o, running, main.
  set (debug := debug_mode argv1).
  set (w0 := if negb debug then _ else _).
  destruct (loop_keeps_running debug before Hrun init_locals [] w0)
    as (Hs & Hf & _).
  rewrite loop_app, Hs.
  set (r := loop debug before init_locals [] w0) in *.
  cbn [loop].
  assert (E : (ch key =? ERR) || (ch key =? KEY_RESIZE) = false).
  { apply orb_false_iff. rewrite !Z.eqb_neq. split; assumption. }
  rewrite E.
  split; [reflexivity|]. split.
  { apply (f_equal snd) in Hf. cbn [snd app] in Hf. rewrite Hf.
    clear. generalize init_locals.
    induction before as [|p ps IH]; intros l; [reflexivity|].
    cbn [List.map clock_run]. destruct (clock_step (timex p) l) as [l' f].
    specialize (IH l'). destruct (clock_run (List.map timex ps) l').
    cbn [snd List.length] in *. rewrite IH. reflexivity. }
  destruct debug; cbn; repeat split; try reflexivity.
  rewrite <- app_assoc. reflexivity.
Qed.

Lemma keypress_ends_loop_witness :
  let before := [Sample.answer Sample.T2017 0 10000;
                 mk_poll KEY_RESIZE 100 30 0
                   (mk_timex (mk_timeval Sample.T2017 50000) 0 10000)] in
  let key := mk_poll 113 100 30 0
               (mk_timex (mk_timeval Sample.T2017 100000) 0 10000) in
  let running := main (libc := Sample.libc2017) None None before in
  let o := main (libc := Sample.libc2017) None None (before ++ [key]) in
  status running = None
  /\ List.length (frames running) = 2%nat
  /\ status o = Some 0
  /\ final o = final running
  /\ frames o = frames running
  /\ TZ (after o) = TZ (after running)
  /\ screen (after o) = screen (after running) ++ [Getch; Endwin].
Proof.
  apply (keypress_ends_loop (libc := Sample.libc2017) None None
           [Sample.answer Sample.T2017 0 10000;
            mk_poll KEY_RESIZE 100 30 0
              (mk_timex (mk_timeval Sample.T2017 50000) 0 10000)]
           (mk_poll 113 100 30 0
              (mk_timex (mk_timeval Sample.T2017 100000) 0 10000))
           []).
  - repeat constructor; vm_compute; discriminate.
  - vm_compute. discriminate.
  - vm_compute. discriminate.
Defined.

(** On the fatal path main returns 1 right after the failed query, and
    nothing is drawn or closed after it. *)
Lemma query_failure_exits {libc : Libc}
    (argv1 tz : option string) (before : list poll) (p : poll) (rest : list poll) :
  Forall keeps_running before ->
  (ch p = ERR \/ ch p = KEY_RESIZE) ->
  adjtimex_ret p < 0 ->
  let running := main argv1 tz before in
  let o := main argv1 tz (before ++ p :: rest) in
  status o = Some 1
  /\ (exists drawn, screen (after o) = screen (after running) ++ Getch :: drawn ++ [Adjtimex]
                    /\ ~ In Adjtimex drawn)
  /\ ~ In Endwin (screen (after o)).
Proof.
  intros Hrun Hch Hret running o.
  unfold o, running, main.
  set (debug := debug_mode argv1).
  set (w0 := if negb debug then _ else _).
  assert (Hw0 : ~ In Endwin (screen w0)).
  { unfold w0. destruct debug; cbn; intuition discriminate. }
  destruct (loop_keeps_running debug before Hrun init_locals [] w0)
    as (Hs & _ & Hno).
  specialize (Hno Hw0).
  rewrite loop_app, Hs.
  set (r := loop debug before init_locals [] w0) in *.
  cbn [loop].
  assert (E : (ch p =? ERR) || (ch p =? KEY_RESIZE) = true).
  { apply orb_true_iff. rewrite !Z.eqb_eq. exact Hch. }
  rewrite E.
  assert (Hlt : (adjtimex_ret p <? 0) = true) by (apply Z.ltb_lt; exact Hret).
  unfold iteration, bind, when, emit, return_from_main, ret.
  destruct debug; cbn [negb snd fst TZ screen]; rewrite Hlt; cbn [status after screen].
  - split; [reflexivity|]. split.
    + exists []. split; [rewrite <- app_assoc; reflexivity | intros []].
    + rewrite !in_app_iff. cbn [In]. intuition discriminate.
  - split; [reflexivity|]. split.
    + eexists [Erase; PrintBorder _ _]. split.
      * rewrite <- !app_assoc. reflexivity.
      * cbn [In]. intuition discriminate.
    + rewrite !in_app_iff. cbn [In]. intuition discriminate.
Qed.

(** C9, evaluated: in full-screen mode, when the kernel query fails in the
    second iteration, main returns 1 and the last call is that query (it is
    not repeated), but [endwin] is never called: the screen opened by
    [initscr] is left open. *)
Theorem fatal_exit_leaves_screen_open :
  let ok := Sample.answer Sample.T2017 0 10000 in
  let failing := mk_poll ERR 80 24 (-1) (mk_timex (mk_timeval 0 0) 0 0) in
  let o := main (libc := Sample.libc2017) None None [ok; failing; ok] in
  status o = Some 1
  /\ List.length (frames o) = 1%nat
  /\ List.filter (fun e => match e with
                          | Initscr | Getch | Adjtimex | Endwin => true
                          | _ => false
                          end) (screen (after o))
     = [Initscr; Getch; Adjtimex; Getch; Adjtimex]
  /\ List.last (screen (after o)) Initscr = Adjtimex
  /\ ~ In Endwin (screen (after o)).
Proof.
  cbv zeta. repeat split; try (vm_compute; reflexivity).
  vm_compute. intuition discriminate.
Qed.

(** ** The leap scenario *)


Lemma Qtrunc_div (n d : Z) : 0 < d -> Qtrunc (inject_Z n / inject_Z d) = n ÷ d.
Proof.
  intros Hd. destruct d as [|p|p]; try lia.
  unfold Qtrunc, Qdiv, Qinv, Qmult, inject_Z. cbn.
  rewrite Z.mul_1_r. reflexivity.
Qed.

Lemma Qtrunc_comp (x y : Q) : (x == y)%Q -> Qtrunc x = Qtrunc y.
Proof.
  destruct x as [a b], y as [c d]. unfold Qeq, Qtrunc. cbn. intros H.
  rewrite <- (Z.quot_mul_cancel_r a (Zpos b) (Zpos d)) by discriminate.
  rewrite H.
  rewrite (Z.mul_comm (Zpos b)).
  apply Z.quot_mul_cancel_r; discriminate.
Qed.

Lemma quot_bounds (n d : Z) : 0 < d -> n - d < d * (n ÷ d) < n + d.
Proof.
  intros Hd.
  pose proof (Z.quot_rem' n d) as H.
  pose proof (Z.rem_bound_abs n d ltac:(lia)) as Hb.
  lia.
Qed.


Lemma diff_tv_micros (a b : timeval) :
  (diff_tv a b == inject_Z (micros a - micros b) / inject_Z 1000000)%Q.
Proof.
  unfold diff_tv, micros.
  replace (tv_sec a * 1000000 + tv_usec a - (tv_sec b * 1000000 + tv_usec b))
    with ((tv_sec a - tv_sec b) * 1000000 + (tv_usec a - tv_usec b)) by lia.
  rewrite inject_Z_plus, inject_Z_mult, million_eq.
  field.
Qed.



Lemma clock_run_cons {libc : Libc} (tx : timex_t) (rest : list timex_t) (l : locals) :
  clock_run (tx :: rest) l
  = (fst (clock_run rest (fst (clock_step tx l))),
     snd (clock_step tx l) :: snd (clock_run rest (fst (clock_step tx l)))).
Proof.
  cbn [clock_run]. destruct (clock_step tx l) as [l' f].
  cbn [fst snd]. destruct (clock_run rest l'). reflexivity.
Qed.

Lemma clock_run_cons_fst {libc : Libc} (tx : timex_t) (rest : list timex_t) (l : locals) :
  fst (clock_run (tx :: rest) l) = fst (clock_run rest (fst (clock_step tx l))).
Proof. rewrite clock_run_cons. reflexivity. Qed.

Lemma clock_run_cons_snd {libc : Libc} (tx : timex_t) (rest : list timex_t) (l : locals) :
  snd (clock_run (tx :: rest) l)
  = snd (clock_step tx l) :: snd (clock_run rest (fst (clock_step tx l))).
Proof. rewrite clock_run_cons. reflexivity. Qed.


Section ScenarioProofs.
Context {libc : Libc}.
Variables (T k s : Z).
Hypothesis day_nonneg : 0 <= T.
Hypothesis day_start : Z.rem T 86400 = 0.
Hypothesis tick_pos : 0 < s.
Hypothesis tick_le : s <= k.
Hypothesis tick_lt : k < 2 * s.
Hypothesis tick_int : k < 2 ^ 31.

(** The exact correction. *)







(** The computed correction. *)




(** The displayed instant. *)



(** The variables of main. *)

















End ScenarioProofs.





(** * Further properties of the code *)

(** ** The borrow loop, the sample and the printed line *)

(** X1: the borrow loop [while (tv_utc.tv_usec < 0) { tv_utc.tv_sec--;
    tv_utc.tv_usec += 1000000; }] has a closed form.  When the microseconds
    are negative it ends with the seconds increased by the floor quotient of
    the microseconds by one million (a negative number) and the microseconds
    replaced by their non-negative remainder; otherwise it changes
    nothing. *)
Theorem borrow_closed_form (tv : timeval) :
  borrow tv
  = if tv_usec tv <? 0
    then mk_timeval (tv_sec tv + tv_usec tv / 1000000) (tv_usec tv mod 1000000)
    else tv.
Proof.
  destruct (borrow_normalizes tv) as (H0 & Hm & Hlt & Hid).
  destruct (tv_usec tv <? 0) eqn:E.
  - apply Z.ltb_lt in E.
    specialize (Hlt ltac:(lia)).
    unfold micros in Hm.
    destruct (borrow tv) as [s' u']. cbn [tv_sec tv_usec] in *.
    assert (Hu : u' = tv_usec tv mod 1000000).
    { apply (Z.mod_unique (tv_usec tv) 1000000 (s' - tv_sec tv) u'); lia. }
    assert (Hs : s' - tv_sec tv = tv_usec tv / 1000000).
    { apply (Z.div_unique (tv_usec tv) 1000000 (s' - tv_sec tv) u'); lia. }
    f_equal; lia.
  - apply Z.ltb_ge in E. apply Hid. exact E.
Qed.

(** X2: the sample main takes from the kernel's answer.  If the kernel
    reports microseconds in [0, 1000000) without STA_NANO, or nanoseconds in
    [0, 1000000000) with STA_NANO, then [tv_system] keeps the seconds, its
    microseconds are in [0, 1000000), they are the reported value without
    STA_NANO, and with STA_NANO they are the reported nanoseconds divided by
    1000 with the fraction dropped. *)
Theorem read_time_normalizes (tx : timex_t) :
  (Z.land (timex_status tx) STA_NANO = 0 ->
     0 <= tv_usec (timex_time tx) < 1000000) ->
  (Z.land (timex_status tx) STA_NANO <> 0 ->
     0 <= tv_usec (timex_time tx) < 1000000000) ->
  tv_sec (read_time tx) = tv_sec (timex_time tx)
  /\ 0 <= tv_usec (read_time tx) < 1000000
  /\ (Z.land (timex_status tx) STA_NANO = 0 ->
        tv_usec (read_time tx) = tv_usec (timex_time tx))
  /\ (Z.land (timex_status tx) STA_NANO <> 0 ->
        1000 * tv_usec (read_time tx) <= tv_usec (timex_time tx)
          < 1000 * tv_usec (read_time tx) + 1000).
Proof.
  intros Hus Hns. unfold read_time.
  destruct (Z.land (timex_status tx) STA_NANO =? 0) eqn:E.
  - apply Z.eqb_eq in E. specialize (Hus E).
    repeat split; intros; lia.
  - apply Z.eqb_neq in E. specialize (Hns E). cbn [tv_sec tv_usec].
    rewrite Z.quot_div_nonneg by lia.
    pose proof (Z.div_mod (tv_usec (timex_time tx)) 1000 ltac:(lia)).
    pose proof (Z.mod_pos_bound (tv_usec (timex_time tx)) 1000 ltac:(lia)).
    assert (tv_usec (timex_time tx) / 1000 < 1000000)
      by (apply Z.div_lt_upper_bound; lia).
    assert (0 <= tv_usec (timex_time tx) / 1000) by (apply Z.div_pos; lia).
    repeat split; intros; lia.
Qed.

(** X3: what print_time writes for normalized microseconds.  It makes
    exactly one output call ([mvprintw] at the given position, or [printf]
    in debug mode) and leaves TZ alone; the digit after the point is the
    tenth of a second the microseconds lie in, between 0 and 9; the calendar
    fields are those of [gmtime] (or [localtime] when [local] is set) except
    that, when [leap] is set and the library says second 59, second 60 is
    shown; without [leap] the broken-down time is shown unchanged. *)
Theorem print_time_line {libc : Libc} (debug : bool) (line col : Z)
    (label : option string) (tv : timeval) (local lp : bool) (w : world) :
  0 <= tv_usec tv < 1000000 ->
  let t0 := if local then localtime (TZ w) (tv_sec tv)
            else gmtime (TZ w) (tv_sec tv) in
  exists t dsecs,
    print_time debug line col label tv local lp w
    = (Val tt,
       mk_world (TZ w)
         (screen w ++ [if debug then PrintfTime label t dsecs
                       else Mvprintw line col label t dsecs]))
    /\ 0 <= dsecs <= 9
    /\ 100000 * dsecs <= tv_usec tv < 100000 * dsecs + 100000
    /\ tm_sec t = (if lp && (tm_sec t0 =? 59) then 60 else tm_sec t0)
    /\ tm_min t = tm_min t0 /\ tm_hour t = tm_hour t0
    /\ tm_mday t = tm_mday t0 /\ tm_mon t = tm_mon t0 /\ tm_year t = tm_year t0
    /\ (lp = false -> t = t0).
Proof.
  intros Hu t0.
  assert (Hd : 0 <= tv_usec tv ÷ 100000 <= 9
               /\ 100000 * (tv_usec tv ÷ 100000) <= tv_usec tv
                  < 100000 * (tv_usec tv ÷ 100000) + 100000).
  { rewrite Z.quot_div_nonneg by lia.
    pose proof (Z.div_mod (tv_usec tv) 100000 ltac:(lia)).
    pose proof (Z.mod_pos_bound (tv_usec tv) 100000 ltac:(lia)).
    assert (tv_usec tv / 100000 < 10) by (apply Z.div_lt_upper_bound; lia).
    assert (0 <= tv_usec tv / 100000) by (apply Z.div_pos; lia).
    lia. }
  exists (if lp && (tm_sec t0 =? 59)
          then mk_tm (tm_sec t0 + 1) (tm_min t0) (tm_hour t0)
                     (tm_mday t0) (tm_mon t0) (tm_year t0)
          else t0), (tv_usec tv ÷ 100000).
  split; [|split; [apply Hd|split; [apply Hd|]]].
  - unfold print_time, bind, call_localtime, call_gmtime, emit.
    subst t0. destruct local, debug; reflexivity.
  - destruct lp; cbn [andb].
    + destruct (tm_sec t0 =? 59) eqn:E.
      * apply Z.eqb_eq in E. cbn. repeat split; intros; try lia; discriminate.
      * repeat split; intros; try reflexivity; discriminate.
    + repeat split; reflexivity.
Qed.

(** ** print_border *)

Lemma in_for_from_1 {A : Type} (n : Z) (body : Z -> list A) (a : A) :
  In a (for_from_1 n body) <-> exists i, 1 <= i < n /\ In a (body i).
Proof.
  unfold for_from_1. rewrite in_flat_map. split.
  - intros (i & Hi & Ha). apply in_seq in Hi. exists (Z.of_nat i). split; [lia|exact Ha].
  - intros (i & Hi & Ha). exists (Z.to_nat i). split.
    + apply in_seq. lia.
    + rewrite Z2Nat.id by lia. exact Ha.
Qed.

Lemma map_for_from_1 {A B : Type} (f : A -> B) (n : Z) (body : Z -> list A) :
  List.map f (for_from_1 n body) = for_from_1 n (fun i => List.map f (body i)).
Proof.
  unfold for_from_1. induction (seq 1 (Z.to_nat n - 1)) as [|i l IH]; [reflexivity|].
  cbn [flat_map]. rewrite map_app, IH. reflexivity.
Qed.

Lemma for_from_1_ext {A : Type} (n : Z) (f g : Z -> list A) :
  (forall i, f i = g i) -> for_from_1 n f = for_from_1 n g.
Proof. intros H. unfold for_from_1. apply flat_map_ext. intros i. apply H. Qed.

Lemma print_border_shift (line col : Z) :
  print_border line col
  = List.map (fun c => mk_mvaddch (line + cell_y c) (col + cell_x c) (cell_ch c))
      (print_border 0 0).
Proof.
  unfold print_border. rewrite !map_app, !map_for_from_1.
  f_equal; [|f_equal].
  - apply for_from_1_ext. intros i. cbn [List.map cell_y cell_x cell_ch].
    repeat f_equal; lia.
  - apply for_from_1_ext. intros i. cbn [List.map cell_y cell_x cell_ch].
    repeat f_equal; lia.
  - cbn [List.map cell_y cell_x cell_ch]. repeat f_equal; lia.
Qed.

Lemma print_border_origin_nodup :
  NoDup (List.map (fun c => (cell_y c, cell_x c)) (print_border 0 0)).
Proof.
  vm_compute.
  repeat (constructor;
          [ intros H; repeat (destruct H as [H|H]; [discriminate H|]); exact H | ]).
  constructor.
Qed.

Ltac frame_cases :=
  unfold frame_char, CLOCK_COLS, CLOCK_LINES in *;
  repeat match goal with
  | |- context [?a <? ?b] => destruct (Z.ltb_spec a b)
  | |- context [?a =? ?b] => destruct (Z.eqb_spec a b)
  | H : context [?a <? ?b] |- _ => destruct (Z.ltb_spec a b)
  | H : context [?a =? ?b] |- _ => destruct (Z.eqb_spec a b)
  end; cbn [orb] in *.

(** X4: print_border draws the frame of a box of 8 rows and 36 columns
    whose upper left corner is at ([line], [col]): a cell receives a
    character if and only if it lies on that frame, and then it is the
    matching corner, a horizontal line on the top and bottom rows or a
    vertical line on the left and right columns; no cell is written twice,
    and there are 84 calls of [mvaddch] in all. *)
Theorem print_border_draws_frame (line col : Z) :
  (forall y x ch,
     In (mk_mvaddch y x ch) (print_border line col)
     <-> frame_char (y - line) (x - col) = Some ch)
  /\ NoDup (List.map (fun c => (cell_y c, cell_x c)) (print_border line col))
  /\ List.length (print_border line col) = 84%nat.
Proof.
  split; [|split].
  - intros y x ch. unfold print_border.
    rewrite !in_app_iff, !in_for_from_1. cbn [In]. unfold CLOCK_COLS, CLOCK_LINES.
    split.
    + intros [(i & Hi & [H|[H|[]]]) | [(i & Hi & [H|[H|[]]]) | [H|[H|[H|[H|[]]]]]]];
        injection H as <- <- <-; frame_cases; try lia; reflexivity.
    + intros H. frame_cases; try discriminate; injection H as <-.
      all: try (right; right; cbn; 
                first [ left; f_equal; lia
                      | right; left; f_equal; lia
                      | right; right; left; f_equal; lia
                      | right; right; right; left; f_equal; lia ]).
      all: try (left; exists (x - col); split; [lia|];
                first [ left; f_equal; lia | right; left; f_equal; lia ]).
      all: try (right; left; exists (y - line); split; [lia|];
                first [ left; f_equal; lia | right; left; f_equal; lia ]).
  - rewrite print_border_shift, map_map. cbn [cell_y cell_x].
    rewrite <- (map_map (fun c => (cell_y c, cell_x c))
                        (fun yx => (line + fst yx, col + snd yx))).
    apply Injective_map_NoDup; [|exact print_border_origin_nodup].
    intros [a b] [c d] H. cbn in H. injection H as H1 H2. f_equal; lia.
  - rewrite print_border_shift, length_map. reflexivity.
Qed.

(** ** Iterations and runs *)

Section Runs.
Context {libc : Libc}.

Lemma iteration_fails (debug : bool) (p : poll) (l : locals) (w : world) :
  adjtimex_ret p < 0 ->
  iteration debug p l w
  = (Return 1,
     mk_world (TZ w)
       (screen w
        ++ (if debug then []
            else [Erase; PrintBorder ((LINES p - CLOCK_LINES) ÷ 2)
                                     ((COLS p - CLOCK_COLS) ÷ 2)])
        ++ [Adjtimex])).
Proof.
  intros Hret.
  assert (Hlt : (adjtimex_ret p <? 0) = true) by (apply Z.ltb_lt; exact Hret).
  unfold iteration, bind, when, emit, return_from_main, ret.
  destruct debug; cbn [negb fst snd TZ screen]; rewrite Hlt.
  - reflexivity.
  - rewrite <- !app_assoc. reflexivity.
Qed.

Lemma iteration_draws_screen (p : poll) (l : locals) (w : world) :
  0 <= adjtimex_ret p ->
  exists t1 d1 t2 d2 t3 d3 t4 d4,
    screen (snd (iteration false p l w))
    = screen w
      ++ [Erase;
          PrintBorder ((LINES p - CLOCK_LINES) ÷ 2) ((COLS p - CLOCK_COLS) ÷ 2);
          Adjtimex;
          Mvprintw ((LINES p - CLOCK_LINES) ÷ 2 + 2) ((COLS p - CLOCK_COLS) ÷ 2 + 3)
            (Some "System"%string) t1 d1;
          Mvprintw ((LINES p - CLOCK_LINES) ÷ 2 + 3) ((COLS p - CLOCK_COLS) ÷ 2 + 3)
            (Some "UTC"%string) t2 d2;
          Mvprintw ((LINES p - CLOCK_LINES) ÷ 2 + 4) ((COLS p - CLOCK_COLS) ÷ 2 + 3)
            (Some "TAI"%string) t3 d3;
          Mvprintw ((LINES p - CLOCK_LINES) ÷ 2 + 5) ((COLS p - CLOCK_COLS) ÷ 2 + 3)
            None t4 d4;
          Refresh; Usleep 50000].
Proof.
  intros Hret.
  assert (Hlt : (adjtimex_ret p <? 0) = false) by (apply Z.ltb_ge; exact Hret).
  unfold iteration.
  destruct (assemble (timex_tick (timex p)) (read_time (timex p))
              (recomputed (read_time (timex p))
                 (detect_step (diff_tv (read_time (timex p)) (last_tv_system l)) l)))
    as [l3 f] eqn:Hasm.
  destruct w as [tz scr].
  unfold bind, when, emit, ret, print_time, call_gmtime, call_localtime.
  cbn [negb TZ screen fst snd]; rewrite Hlt;
    rewrite recompute_recomputed; cbn [TZ screen]; rewrite Hasm;
    cbv [bind when emit ret print_time call_gmtime call_localtime];
    cbn [negb TZ screen snd];
    repeat rewrite <- app_assoc; cbn [app].
  do 8 eexists. reflexivity.
Qed.

Lemma iteration_draws_debug (p : poll) (l : locals) (w : world) :
  0 <= adjtimex_ret p ->
  exists t1 d1 t2 d2 t3 d3 t4 d4 diff st sl lp,
    screen (snd (iteration true p l w))
    = screen w
      ++ [Adjtimex; PrintfDiff diff st sl lp;
          PrintfTime (Some "System"%string) t1 d1;
          PrintfTime (Some "UTC"%string) t2 d2;
          PrintfTime (Some "TAI"%string) t3 d3;
          PrintfTime None t4 d4;
          Usleep 50000].
Proof.
  intros Hret.
  assert (Hlt : (adjtimex_ret p <? 0) = false) by (apply Z.ltb_ge; exact Hret).
  unfold iteration.
  destruct (assemble (timex_tick (timex p)) (read_time (timex p))
              (recomputed (read_time (timex p))
                 (detect_step (diff_tv (read_time (timex p)) (last_tv_system l)) l)))
    as [l3 f] eqn:Hasm.
  destruct w as [tz scr].
  unfold bind, when, emit, ret, print_time, call_gmtime, call_localtime.
  cbn [negb TZ screen fst snd]; rewrite Hlt;
    rewrite recompute_recomputed; cbn [TZ screen]; rewrite Hasm;
    cbv [bind when emit ret print_time call_gmtime call_localtime];
    cbn [negb TZ screen snd];
    repeat rewrite <- app_assoc; cbn [app].
  do 12 eexists. reflexivity.
Qed.

Lemma iteration_events (debug : bool) (p : poll) (l : locals) (w : world) :
  exists evs,
    screen (snd (iteration debug p l w)) = screen w ++ evs
    /\ Forall (loop_event debug) evs.
Proof.
  destruct (Z_lt_dec (adjtimex_ret p) 0) as [Hret|Hret].
  - rewrite (iteration_fails debug p l w Hret). cbn [snd screen].
    eexists. split; [reflexivity|].
    destruct debug; repeat constructor.
  - destruct debug.
    + destruct (iteration_draws_debug p l w ltac:(lia))
        as (t1 & d1 & t2 & d2 & t3 & d3 & t4 & d4 & diff & st & sl & lp & H).
      rewrite H. eexists. split; [reflexivity|]. repeat constructor.
    + destruct (iteration_draws_screen p l w ltac:(lia))
        as (t1 & d1 & t2 & d2 & t3 & d3 & t4 & d4 & H).
      rewrite H. eexists. split; [reflexivity|]. repeat constructor.
Qed.

Lemma loop_invariant (P : poll -> Prop) (I : locals -> Prop) (F : frame -> Prop) :
  (forall p l, P p -> I l ->
     I (fst (clock_step (timex p) l)) /\ F (snd (clock_step (timex p) l))) ->
  forall (debug : bool) (answers : list poll) (l : locals) (fs : list frame)
         (w : world),
  Forall (fun p => 0 <= adjtimex_ret p -> P p) answers ->
  I l -> Forall F fs ->
  I (final (loop debug answers l fs w))
  /\ Forall F (frames (loop debug answers l fs w)).
Proof.
  intros Hstep debug answers.
  induction answers as [|p rest IH]; intros l fs w Hans Hl Hfs.
  - cbn. split; assumption.
  - inversion Hans as [|? ? Hp Hrest]; subst.
    cbn [loop].
    destruct ((ch p =? ERR) || (ch p =? KEY_RESIZE)); [|cbn; split; assumption].
    destruct (Z_lt_dec (adjtimex_ret p) 0) as [Hret|Hret].
    + rewrite (iteration_fails debug p l _ Hret). cbn. split; assumption.
    + assert (Hge : 0 <= adjtimex_ret p) by lia.
      destruct (iteration_clock_step debug p l (snd (emit Getch w)) Hge)
        as (evs & Hit & _).
      cbv zeta in Hit. rewrite Hit.
      destruct (Hstep p l (Hp Hge) Hl) as [Hl' Hf].
      rewrite (surjective_pairing (clock_step (timex p) l)).
      apply IH; [exact Hrest | exact Hl' |].
      apply Forall_app. split; [exact Hfs | constructor; [exact Hf | constructor]].
Qed.

End Runs.

Section Steps.
Context {libc : Libc}.

Lemma recomputed_keeps (sample : timeval) (l : locals) :
  slew (recomputed sample l) = slew l
  /\ tick (recomputed sample l) = tick l
  /\ slew_tick (recomputed sample l) = slew_tick l
  /\ last_tv_system (recomputed sample l) = last_tv_system l.
Proof.
  unfold recomputed. destruct (recompute_due sample l); cbn; repeat split; reflexivity.
Qed.

Lemma recomputed_step (sample : timeval) (l : locals) :
  step (recomputed sample l) = false.
Proof.
  unfold recomputed, recompute_due.
  destruct (step l) eqn:E; cbn [orb]; [reflexivity|].
  destruct (negb _); [reflexivity | exact E].
Qed.

Lemma clock_step_step (tx : timex_t) (l : locals) :
  step (fst (clock_step tx l)) = false.
Proof.
  unfold clock_step.
  destruct (assemble_keeps (timex_tick tx) (read_time tx)
    (recomputed (read_time tx)
       (detect_step (diff_tv (read_time tx) (last_tv_system l)) l)))
    as (_ & _ & _ & -> & _).
  apply recomputed_step.
Qed.

Lemma clock_step_offsets (tx : timex_t) (l : locals) :
  tai_offset l = last_tai_offset l ->
  tai_offset (fst (clock_step tx l)) = last_tai_offset (fst (clock_step tx l)).
Proof.
  intros H. rewrite clock_step_tai_offset, clock_step_last_tai_offset.
  unfold recomputed. destruct (recompute_due _ _); [reflexivity|].
  destruct (detect_step_keeps (diff_tv (read_time tx) (last_tv_system l)) l)
    as (-> & -> & _). exact H.
Qed.

Lemma clock_step_last_sample (tx : timex_t) (l : locals) :
  last_tv_system (fst (clock_step tx l)) = read_time tx
  /\ tv_system (snd (clock_step tx l)) = read_time tx.
Proof.
  unfold clock_step. split.
  - apply assemble_keeps.
  - pose proof (assemble_frame (timex_tick tx) (read_time tx)
      (recomputed (read_time tx)
         (detect_step (diff_tv (read_time tx) (last_tv_system l)) l))) as Hf.
    cbv zeta in Hf. rewrite Hf. reflexivity.
Qed.

Lemma clock_step_slew (tx : timex_t) (l : locals) :
  slew (fst (clock_step tx l)) = true ->
  (slew l = true /\ classify (diff_tv (read_time tx) (last_tv_system l)) = NORMAL)
  \/ (leap (fst (clock_step tx l)) = true /\ Z.rem (tv_sec (read_time tx)) 86400 = 0).
Proof.
  rewrite clock_step_leap.
  unfold clock_step. rewrite assemble_fst.
  set (l1 := detect_step (diff_tv (read_time tx) (last_tv_system l)) l).
  set (l2 := recomputed (read_time tx) l1).
  unfold slew_block, arm. cbn [leap slew tv_sec].
  destruct (leap l2) eqn:Hleap; cbn [andb].
  - destruct (Z.rem (tv_sec (read_time tx)) 86400 =? 0) eqn:Hrem.
    + intros _. right. split; [reflexivity | apply Z.eqb_eq; exact Hrem].
    + cbn [slew]. destruct (slew l2) eqn:Hs.
      * intros _. left.
        destruct (recomputed_keeps (read_time tx) l1) as (Hk & _).
        fold l2 in Hk. rewrite Hs in Hk. unfold l1, detect_step in Hk |- *.
        destruct (classify (diff_tv (read_time tx) (last_tv_system l)));
          cbn in Hk; try discriminate. split; [symmetry; exact Hk | reflexivity].
      * cbn. discriminate.
  - cbn [slew]. destruct (slew l2) eqn:Hs.
    + intros _. left.
      destruct (recomputed_keeps (read_time tx) l1) as (Hk & _).
      fold l2 in Hk. rewrite Hs in Hk. unfold l1, detect_step in Hk |- *.
      destruct (classify (diff_tv (read_time tx) (last_tv_system l)));
        cbn in Hk; try discriminate. split; [symmetry; exact Hk | reflexivity].
    + cbn. discriminate.
Qed.

End Steps.

(** ** Anomalies and the start *)

Lemma discontinuity_changes_second (current previous : timeval) :
  0 <= tv_usec current < 1000000 -> 0 <= tv_usec previous < 1000000 ->
  classify (diff_tv current previous) = DISCONTINUITY ->
  tv_sec previous <> tv_sec current.
Proof.
  intros Hc Hp H Heq. apply classify_discontinuity in H.
  rewrite diff_tv_micros in H. unfold micros in H. rewrite Heq in H.
  assert (H1 : (inject_Z (tv_sec current * 1000000 + tv_usec current
                          - (tv_sec current * 1000000 + tv_usec previous))
                / inject_Z 1000000 <= 1)%Q).
  { unfold Qle, Qdiv, Qmult, Qinv, inject_Z. cbn [Qnum Qden]. lia. }
  assert (H2 : (-1 <= inject_Z (tv_sec current * 1000000 + tv_usec current
                                - (tv_sec current * 1000000 + tv_usec previous))
                      / inject_Z 1000000)%Q).
  { unfold Qle, Qdiv, Qmult, Qinv, inject_Z. cbn [Qnum Qden]. lia. }
  destruct H as [H|H]; lra.
Qed.

(** X6: a sample that is not classified as normal always makes the
    iteration recompute the TAI offset.  For normalized samples with a
    difference outside the normal range the iteration ends with TZ unset,
    [step] cleared and [last_tai_offset] equal to [tai_offset]; after a
    backward step the offset is the one of the second that follows the
    sampled second, after a discontinuity it is the one of the sampled
    second itself. *)
Theorem anomaly_forces_recompute {libc : Libc}
    (debug : bool) (p : poll) (l : locals) (w : world) :
  0 <= adjtimex_ret p ->
  0 <= tv_usec (read_time (timex p)) < 1000000 ->
  0 <= tv_usec (last_tv_system l) < 1000000 ->
  classify (diff_tv (read_time (timex p)) (last_tv_system l)) <> NORMAL ->
  exists l' f w',
    iteration debug p l w = (Val (l', f), w')
    /\ TZ w' = None
    /\ step l' = false
    /\ last_tai_offset l' = tai_offset l'
    /\ (classify (diff_tv (read_time (timex p)) (last_tv_system l)) = BACKWARD_STEP ->
          forall w0, fst (get_tai_offset (tv_sec (read_time (timex p)) + 1) w0)
                     = Val (tai_offset l'))
    /\ (classify (diff_tv (read_time (timex p)) (last_tv_system l)) = DISCONTINUITY ->
          forall w0, fst (get_tai_offset (tv_sec (read_time (timex p))) w0)
                     = Val (tai_offset l')).
Proof.
  intros Hret Hu Hpu Hcl.
  destruct (iteration_returns debug p l w Hret) as (w' & Hit & Htz).
  exists (fst (clock_step (timex p) l)), (snd (clock_step (timex p) l)), w'.
  split; [exact Hit|].
  rewrite Htz, clock_step_step, clock_step_tai_offset, clock_step_last_tai_offset.
  unfold recomputed, recompute_due, detect_step.
  destruct (classify (diff_tv (read_time (timex p)) (last_tv_system l))) eqn:E;
    cbn [step last_tv_system orb tai_offset last_tai_offset Z.b2z].
  - repeat split; intros; try discriminate;
      try (rewrite get_tai_offset_value); reflexivity.
  - assert (Hne : (tv_sec (last_tv_system l) =? tv_sec (read_time (timex p))) = false).
    { apply Z.eqb_neq. apply discontinuity_changes_second; assumption. }
    rewrite Hne. cbn [negb tai_offset last_tai_offset].
    repeat split; intros; try discriminate;
      try (rewrite get_tai_offset_value, Z.add_0_r); reflexivity.
  - contradiction.
Qed.

(** X14: the slew is only ever entered at second 0 of a day.  If [slew] is
    set after an iteration, then either it was set before and the sample
    was classified as normal, or [leap] is set and the sampled second is a
    multiple of 86400. *)
Theorem slew_engages_only_at_second_0 {libc : Libc}
    (debug : bool) (p : poll) (l : locals) (w : world) :
  0 <= adjtimex_ret p ->
  exists l' f w',
    iteration debug p l w = (Val (l', f), w')
    /\ (slew l' = true ->
          (slew l = true
           /\ classify (diff_tv (read_time (timex p)) (last_tv_system l)) = NORMAL)
          \/ (leap l' = true /\ Z.rem (tv_sec (read_time (timex p))) 86400 = 0)).
Proof.
  intros Hret.
  destruct (iteration_returns debug p l w Hret) as (w' & Hit & _).
  exists (fst (clock_step (timex p) l)), (snd (clock_step (timex p) l)), w'.
  split; [exact Hit|]. apply clock_step_slew.
Qed.

Lemma assemble_idle (k : Z) (sample : timeval) (l : locals) :
  slew l = false ->
  leap l && (Z.rem (tv_sec sample) 86400 =? 0) = false ->
  assemble k sample l
  = (mk_locals (tai_offset l) (last_tai_offset l) (leap l) (step l) false
       (to_int k) (slew_tick l) sample,
     mk_frame sample sample
       (mk_timeval (tv_sec sample + tai_offset l) (tv_usec sample))).
Proof.
  intros Hs Ha. unfold assemble, arm. cbn [leap]. rewrite Ha.
  unfold slew_block. cbn [slew tai_offset last_tai_offset leap step tick slew_tick
                           last_tv_system].
  rewrite Hs. reflexivity.
Qed.

Lemma clock_step_idle {libc : Libc} (tx : timex_t) (l : locals) :
  slew (detect_step (diff_tv (read_time tx) (last_tv_system l)) l) = false ->
  leap (fst (clock_step tx l)) = false \/ Z.rem (tv_sec (read_time tx)) 86400 <> 0 ->
  slew (fst (clock_step tx l)) = false
  /\ tick (fst (clock_step tx l)) = to_int (timex_tick tx)
  /\ slew_tick (fst (clock_step tx l)) = slew_tick l
  /\ tv_utc (snd (clock_step tx l)) = read_time tx
  /\ tv_tai (snd (clock_step tx l))
     = mk_timeval (tv_sec (read_time tx) + tai_offset (fst (clock_step tx l)))
         (tv_usec (read_time tx)).
Proof.
  rewrite clock_step_leap, clock_step_tai_offset. unfold clock_step.
  intros Hs Ha.
  destruct (recomputed_keeps (read_time tx)
              (detect_step (diff_tv (read_time tx) (last_tv_system l)) l))
    as (Hk1 & _ & Hk3 & _).
  destruct (detect_step_keeps (diff_tv (read_time tx) (last_tv_system l)) l)
    as (_ & _ & _ & Hd & _).
  rewrite assemble_idle.
  - cbn [fst snd slew tick slew_tick tv_utc tv_tai].
    rewrite Hk3, Hd. repeat split; reflexivity.
  - rewrite Hk1. exact Hs.
  - destruct Ha as [Ha|Ha].
    + rewrite Ha. reflexivity.
    + apply andb_false_iff. right. apply Z.eqb_neq. exact Ha.
Qed.

(** X13: a discontinuity abandons a slew.  After a sample whose
    difference to the previous one is above 1 s or below -1 s, [step] is
    cleared, and [leap] can only be set if the offset was recomputed and
    grew from a non-zero value.  Unless the slew is re-armed in the same
    iteration ([leap] set at second 0 of a day), [slew] is cleared, the
    displayed UTC is the system time, [tick] is the kernel's tick, and
    [slew_tick] keeps the value it had: it is not reset. *)
Theorem discontinuity_abandons_slew {libc : Libc}
    (debug : bool) (p : poll) (l : locals) (w : world) :
  0 <= adjtimex_ret p ->
  classify (diff_tv (read_time (timex p)) (last_tv_system l)) = DISCONTINUITY ->
  exists l' f w',
    iteration debug p l w = (Val (l', f), w')
    /\ step l' = false
    /\ (leap l' = true ->
          last_tai_offset l <> 0 /\ last_tai_offset l < tai_offset l')
    /\ (leap l' = false \/ Z.rem (tv_sec (read_time (timex p))) 86400 <> 0 ->
          slew l' = false
          /\ tv_utc f = tv_system f
          /\ tick l' = to_int (timex_tick (timex p))
          /\ slew_tick l' = slew_tick l).
Proof.
  intros Hret Hcl.
  destruct (iteration_returns debug p l w Hret) as (w' & Hit & _).
  exists (fst (clock_step (timex p) l)), (snd (clock_step (timex p) l)), w'.
  split; [exact Hit|].
  split; [apply clock_step_step|]. split.
  - rewrite clock_step_leap, clock_step_tai_offset.
    unfold recomputed, detect_step. rewrite Hcl.
    destruct (recompute_due _ _); cbn [leap tai_offset last_tai_offset].
    + rewrite andb_true_iff, negb_true_iff, Z.eqb_neq, Z.ltb_lt. tauto.
    + discriminate.
  - intros Ha.
    destruct (clock_step_idle (timex p) l) as (H1 & H2 & H3 & H4 & _).
    + unfold detect_step. rewrite Hcl. reflexivity.
    + exact Ha.
    + destruct (clock_step_last_sample (timex p) l) as (_ & Hsys).
      rewrite Hsys. repeat split; assumption.
Qed.

(** X15: the first iteration.  From the initial variables, a sample
    after the epoch with non-negative microseconds gives a frame whose UTC
    is the system time and whose TAI is the system time plus the offset
    [get_tai_offset] returns for the sampled second; [leap], [step] and
    [slew] are clear, [tick] is the kernel's tick, [slew_tick] is 0, the
    sample is remembered, and TZ is left unset whatever it was. *)
Theorem first_iteration {libc : Libc} (debug : bool) (p : poll) (w : world) :
  0 <= adjtimex_ret p ->
  0 < tv_sec (read_time (timex p)) ->
  0 <= tv_usec (read_time (timex p)) ->
  exists l' f w',
    iteration debug p init_locals w = (Val (l', f), w')
    /\ tv_system f = read_time (timex p)
    /\ tv_utc f = read_time (timex p)
    /\ tv_tai f = mk_timeval (tv_sec (read_time (timex p)) + tai_offset l')
                    (tv_usec (read_time (timex p)))
    /\ (forall w0, fst (get_tai_offset (tv_sec (read_time (timex p))) w0)
                   = Val (tai_offset l'))
    /\ last_tai_offset l' = tai_offset l'
    /\ leap l' = false /\ step l' = false /\ slew l' = false
    /\ tick l' = to_int (timex_tick (timex p)) /\ slew_tick l' = 0
    /\ last_tv_system l' = read_time (timex p)
    /\ TZ w' = None.
Proof.
  intros Hret Hsec Hu.
  destruct (iteration_returns debug p init_locals w Hret) as (w' & Hit & Htz).
  exists (fst (clock_step (timex p) init_locals)),
         (snd (clock_step (timex p) init_locals)), w'.
  split; [exact Hit|].
  assert (Hd : detect_step (diff_tv (read_time (timex p)) (last_tv_system init_locals))
                 init_locals = init_locals).
  { unfold detect_step.
    destruct (classify _) eqn:E; try reflexivity.
    exfalso. apply classify_backward in E. rewrite diff_tv_micros in E.
    unfold micros, init_locals in E. cbn [last_tv_system tv_sec tv_usec] in E.
    destruct E as [_ E].
    assert (Hq : (0 <= inject_Z (tv_sec (read_time (timex p)) * 1000000
                                 + tv_usec (read_time (timex p)) - (0 * 1000000 + 0))
                      / inject_Z 1000000)%Q).
    { unfold Qle, Qdiv, Qmult, Qinv, inject_Z. cbn [Qnum Qden]. lia. }
    lra. }
  assert (Hdue : recompute_due (read_time (timex p)) init_locals = true).
  { unfold recompute_due, init_locals. cbn [step last_tv_system tv_sec orb].
    apply negb_true_iff, Z.eqb_neq. lia. }
  assert (Hleap : leap (fst (clock_step (timex p) init_locals)) = false).
  { rewrite clock_step_leap, Hd. unfold recomputed. rewrite Hdue. reflexivity. }
  destruct (clock_step_idle (timex p) init_locals) as (H1 & H2 & H3 & H4 & H5).
  { rewrite Hd. reflexivity. }
  { left. exact Hleap. }
  destruct (clock_step_last_sample (timex p) init_locals) as (Hlast & Hsys).
  rewrite Htz, Hd, Hdue.
  split; [exact Hsys|]. split; [exact H4|]. split; [exact H5|].
  split.
  { intros w0. rewrite get_tai_offset_value, clock_step_tai_offset, Hd.
    unfold recomputed. rewrite Hdue. cbn [tai_offset step init_locals Z.b2z].
    rewrite Z.add_0_r. reflexivity. }
  split.
  { symmetry. apply clock_step_offsets. reflexivity. }
  split; [exact Hleap|]. split; [apply clock_step_step|].
  split; [exact H1|]. split; [exact H2|]. split; [exact H3|].
  split; [exact Hlast | reflexivity].
Qed.

(** ** Bounds on the slew *)

Lemma half_ge (a k : Z) : 0 < k -> k <= a ÷ 2 -> 2 * k <= a.
Proof.
  intros Hk H.
  destruct (Z_lt_dec a 0) as [Hn|Hn].
  - assert (Hq : 0 <= (- a) ÷ 2) by (apply Z.quot_pos; lia).
    rewrite Z.quot_opp_l in Hq by lia. lia.
  - rewrite Z.quot_div_nonneg in H by lia.
    pose proof (Z.mul_div_le a 2). lia.
Qed.

Lemma base_tick_bounds (k : Z) (l : locals) :
  0 < k < 2 ^ 31 -> 0 <= slew_tick l ->
  0 < base_tick k l
  /\ (((tick l + base_tick k l) ÷ 2 <? k) = false -> base_tick k l <= tick l).
Proof.
  intros Hk Hst. unfold base_tick.
  assert (Hid : to_int k = k) by (apply to_int_id; unfold int_range; lia).
  destruct (slew_tick l =? 0) eqn:E0; cbn [orb].
  - rewrite Hid. split; [lia|]. intros H. apply Z.ltb_ge in H.
    pose proof (half_ge (tick l + k) k ltac:(lia) H). lia.
  - apply Z.eqb_neq in E0. destruct (k <? slew_tick l) eqn:E1.
    + rewrite Hid. split; [lia|]. intros H. apply Z.ltb_ge in H.
      pose proof (half_ge (tick l + k) k ltac:(lia) H). lia.
    + apply Z.ltb_ge in E1. split; [lia|]. intros H. apply Z.ltb_ge in H.
      pose proof (half_ge (tick l + slew_tick l) k ltac:(lia) H). lia.
Qed.

Lemma to_int_range (z : Z) : - 2 ^ 31 <= to_int z < 2 ^ 31.
Proof.
  unfold to_int. pose proof (Z.mod_pos_bound (z + 2 ^ 31) (2 ^ 32) ltac:(lia)). lia.
Qed.

Lemma correction_le_1 (k : Z) (utc : timeval) (l : locals) :
  0 < k < 2 ^ 31 -> 0 <= slew_tick l -> tick l < 2 ^ 31 ->
  0 <= tv_sec utc -> 0 <= tv_usec utc < 1000000 ->
  (correction k utc l <= 1)%Q.
Proof.
  intros Hk Hst Htk Hsec Hu.
  destruct (base_tick_bounds k l Hk Hst) as [Hb Hle].
  unfold correction, slew_done.
  destruct (Qle_bool (slew_diff k utc l) 0.0); cbn [orb]; [lra|].
  destruct ((tick l + base_tick k l) ÷ 2 <? k); [lra|].
  unfold slew_diff.
  pose proof (Z.rem_bound_pos (tv_sec utc) 86400 Hsec ltac:(lia)).
  apply diff64_le_1; lia.
Qed.

Lemma slew_block_lag (k : Z) (utc : timeval) (l : locals) :
  0 < k < 2 ^ 31 -> 0 <= slew_tick l -> tick l < 2 ^ 31 ->
  0 <= tv_sec utc -> 0 <= tv_usec utc < 1000000 ->
  (0 <= slew_tick (fst (slew_block k utc l))
   /\ tick (fst (slew_block k utc l)) < 2 ^ 31)
  /\ micros utc - 1000000 <= micros (snd (slew_block k utc l)) <= micros utc
  /\ 0 <= tv_usec (snd (slew_block k utc l)) < 1000000.
Proof.
  intros Hk Hst Htk Hsec Hu.
  split; [|split; [|apply slew_block_usec; exact Hu]].
  - unfold slew_block. destruct (slew l).
    + destruct (slew_done k utc l); cbn [fst slew_tick tick]; [lia|].
      pose proof (base_tick_bounds k l Hk Hst). lia.
    + cbn [fst slew_tick tick]. pose proof (to_int_range k). lia.
  - unfold slew_block. destruct (slew l); cbn [snd]; [|lia].
    destruct (borrow_normalizes
      (mk_timeval (tv_sec utc) (slewed_usec (correction k utc l) (tv_usec utc))))
      as (_ & -> & _).
    pose proof (slewed_usec_range (correction k utc l) (tv_usec utc)
      (conj (correction_nonneg k utc l)
            (correction_le_1 k utc l Hk Hst Htk Hsec Hu)) Hu) as Hq.
    unfold micros. cbn [tv_sec tv_usec]. lia.
Qed.

Section Lag.
Context {libc : Libc}.

Lemma clock_step_slew_tick (tx : timex_t) (l : locals) :
  0 < timex_tick tx < 2 ^ 31 ->
  0 <= tv_sec (read_time tx) -> 0 <= tv_usec (read_time tx) < 1000000 ->
  0 <= slew_tick l /\ tick l < 2 ^ 31 ->
  (0 <= slew_tick (fst (clock_step tx l)) /\ tick (fst (clock_step tx l)) < 2 ^ 31)
  /\ micros (read_time tx) - 1000000 <= micros (tv_utc (snd (clock_step tx l)))
     <= micros (read_time tx)
  /\ 0 <= tv_usec (tv_utc (snd (clock_step tx l))) < 1000000.
Proof.
  intros Hk Hsec Hu [Hst Htk].
  rewrite clock_step_utc. unfold clock_step. rewrite assemble_fst.
  destruct (arm_keeps (read_time tx)
    (mk_locals
       (tai_offset (recomputed (read_time tx)
          (detect_step (diff_tv (read_time tx) (last_tv_system l)) l)))
       (last_tai_offset (recomputed (read_time tx)
          (detect_step (diff_tv (read_time tx) (last_tv_system l)) l)))
       (leap (recomputed (read_time tx)
          (detect_step (diff_tv (read_time tx) (last_tv_system l)) l)))
       (step (recomputed (read_time tx)
          (detect_step (diff_tv (read_time tx) (last_tv_system l)) l)))
       (slew (recomputed (read_time tx)
          (detect_step (diff_tv (read_time tx) (last_tv_system l)) l)))
       (tick (recomputed (read_time tx)
          (detect_step (diff_tv (read_time tx) (last_tv_system l)) l)))
       (slew_tick (recomputed (read_time tx)
          (detect_step (diff_tv (read_time tx) (last_tv_system l)) l)))
       (read_time tx))) as (_ & _ & _ & _ & Ht & Hs & _).
  cbn [slew_tick tick] in Ht, Hs.
  destruct (recomputed_keeps (read_time tx)
    (detect_step (diff_tv (read_time tx) (last_tv_system l)) l))
    as (_ & Ht2 & Hs2 & _).
  destruct (detect_step_keeps (diff_tv (read_time tx) (last_tv_system l)) l)
    as (_ & _ & Ht3 & Hs3 & _).
  apply slew_block_lag; try assumption.
  - rewrite Hs, Hs2, Hs3. exact Hst.
  - rewrite Ht, Ht2, Ht3. exact Htk.
Qed.

(** X7: two invariants of the loop of main.  Whenever the loop condition
    is evaluated, and when main returns, [step] is clear and [tai_offset]
    equals [last_tai_offset], for every sequence of answers of the terminal
    and the kernel. *)
Theorem run_invariants (argv1 tz : option string) (answers : list poll) :
  step (final (main argv1 tz answers)) = false
  /\ tai_offset (final (main argv1 tz answers))
     = last_tai_offset (final (main argv1 tz answers)).
Proof.
  unfold main.
  apply (loop_invariant (fun _ => True)
           (fun l => step l = false /\ tai_offset l = last_tai_offset l)
           (fun _ => True)).
  - intros p l _ [Hs Ho]. split; [split|exact I].
    + apply clock_step_step.
    + apply clock_step_offsets. exact Ho.
  - apply Forall_forall. intros; exact I.
  - split; reflexivity.
  - constructor.
Qed.

(** X8: the displayed UTC never runs ahead of the system clock and never
    falls more than one second behind it.  If every successful answer of
    the kernel has a positive tick that fits an [int], a time after the
    epoch and normalized microseconds, then in every frame of every run the
    UTC instant is between the system instant minus one second and the
    system instant, its microseconds are in [0, 1000000), and [slew_tick]
    never becomes negative. *)
Theorem utc_lags_at_most_a_second
    (argv1 tz : option string) (answers : list poll) :
  Forall (fun p => 0 <= adjtimex_ret p -> sane_answer p) answers ->
  0 <= slew_tick (final (main argv1 tz answers))
  /\ Forall (fun f =>
              micros (tv_system f) - 1000000 <= micros (tv_utc f)
                <= micros (tv_system f)
              /\ 0 <= tv_usec (tv_utc f) < 1000000)
       (frames (main argv1 tz answers)).
Proof.
  intros Hans. unfold main.
  assert (Hstep : forall p l, sane_answer p ->
    0 <= slew_tick l /\ tick l < 2 ^ 31 ->
    (0 <= slew_tick (fst (clock_step (timex p) l))
     /\ tick (fst (clock_step (timex p) l)) < 2 ^ 31)
    /\ (micros (tv_system (snd (clock_step (timex p) l))) - 1000000
          <= micros (tv_utc (snd (clock_step (timex p) l)))
          <= micros (tv_system (snd (clock_step (timex p) l)))
        /\ 0 <= tv_usec (tv_utc (snd (clock_step (timex p) l))) < 1000000)).
  { intros p l (Hk & Hsec & Hu) Hinv.
    destruct (clock_step_slew_tick (timex p) l Hk Hsec Hu Hinv) as (Ha & Hb & Hc).
    destruct (clock_step_last_sample (timex p) l) as [_ Hsys].
    rewrite Hsys. auto. }
  destruct (loop_invariant sane_answer
              (fun l => 0 <= slew_tick l /\ tick l < 2 ^ 31)
              (fun f =>
                 micros (tv_system f) - 1000000 <= micros (tv_utc f)
                   <= micros (tv_system f)
                 /\ 0 <= tv_usec (tv_utc f) < 1000000)
              Hstep (debug_mode argv1) answers init_locals []
              (if negb (debug_mode argv1)
               then snd (emit Initscr (mk_world tz []))
               else mk_world tz []) Hans) as [[I1 _] I2].
  - cbn. lia.
  - constructor.
  - split; assumption.
Qed.

End Lag.

Section ConstantOffset.
Context {libc : Libc}.

Lemma recomputed_constant (sample : timeval) (d : Q) (l : locals) (c : Z) :
  0 < tv_sec sample ->
  offset_value (tv_sec sample) = c ->
  offset_value (tv_sec sample + 1) = c ->
  leap l = false -> slew l = false ->
  (tai_offset l = 0 /\ last_tai_offset l = 0 /\ tv_sec (last_tv_system l) = 0)
  \/ (tai_offset l = c /\ last_tai_offset l = c) ->
  leap (recomputed sample (detect_step d l)) = false
  /\ slew (recomputed sample (detect_step d l)) = false
  /\ tai_offset (recomputed sample (detect_step d l)) = c
  /\ last_tai_offset (recomputed sample (detect_step d l)) = c.
Proof.
  intros Hsec Hc Hc1 Hleap Hslew Hoff.
  assert (Hl : leap (detect_step d l) = false)
    by (unfold detect_step; destruct (classify d); cbn; auto).
  assert (Hs : slew (detect_step d l) = false)
    by (unfold detect_step; destruct (classify d); cbn; auto).
  destruct (detect_step_keeps d l) as (Ht & Hlast & _ & _ & Hprev).
  unfold recomputed, recompute_due.
  destruct (step (detect_step d l)) eqn:Hstep; cbn [orb Z.b2z].
  - cbn [leap slew tai_offset last_tai_offset]. rewrite Hc1, Hlast.
    repeat split; auto.
    destruct Hoff as [(_ & -> & _)|(_ & ->)]; [reflexivity|].
    rewrite Z.ltb_irrefl. apply andb_false_r.
  - destruct (tv_sec (last_tv_system (detect_step d l)) =? tv_sec sample) eqn:E;
      cbn [negb].
    + apply Z.eqb_eq in E. rewrite Hprev in E.
      destruct Hoff as [(_ & _ & H0)|(Ha & Hb)]; [lia|].
      rewrite Ht, Hlast. auto.
    + cbn [leap slew tai_offset last_tai_offset].
      rewrite Z.add_0_r, Hc, Hlast. repeat split; auto.
      destruct Hoff as [(_ & -> & _)|(_ & ->)]; [reflexivity|].
      rewrite Z.ltb_irrefl. apply andb_false_r.
Qed.

Lemma clock_step_constant (tx : timex_t) (l : locals) (c : Z) :
  0 < tv_sec (read_time tx) ->
  offset_value (tv_sec (read_time tx)) = c ->
  offset_value (tv_sec (read_time tx) + 1) = c ->
  leap l = false -> slew l = false ->
  (tai_offset l = 0 /\ last_tai_offset l = 0 /\ tv_sec (last_tv_system l) = 0)
  \/ (tai_offset l = c /\ last_tai_offset l = c) ->
  (leap (fst (clock_step tx l)) = false
   /\ slew (fst (clock_step tx l)) = false
   /\ slew_tick (fst (clock_step tx l)) = slew_tick l
   /\ tai_offset (fst (clock_step tx l)) = c
   /\ last_tai_offset (fst (clock_step tx l)) = c)
  /\ tv_utc (snd (clock_step tx l)) = tv_system (snd (clock_step tx l))
  /\ tv_tai (snd (clock_step tx l))
     = mk_timeval (tv_sec (tv_system (snd (clock_step tx l))) + c)
         (tv_usec (tv_system (snd (clock_step tx l)))).
Proof.
  intros Hsec Hc Hc1 Hleap Hslew Hoff.
  destruct (recomputed_constant (read_time tx)
              (diff_tv (read_time tx) (last_tv_system l)) l c
              Hsec Hc Hc1 Hleap Hslew Hoff) as (R1 & R2 & R3 & R4).
  assert (Hl' : leap (fst (clock_step tx l)) = false)
    by (rewrite clock_step_leap; exact R1).
  assert (Ht' : tai_offset (fst (clock_step tx l)) = c)
    by (rewrite clock_step_tai_offset; exact R3).
  destruct (clock_step_idle tx l) as (H1 & _ & H3 & H4 & H5).
  { unfold detect_step. destruct (classify _); cbn; auto. }
  { left. exact Hl'. }
  destruct (clock_step_last_sample tx l) as (_ & Hsys).
  rewrite Hsys, H4, H5, Ht', clock_step_last_tai_offset, R4.
  repeat split; auto.
Qed.

(** X9: away from a leap second the program shows the system clock.  If
    [get_tai_offset] gives the same value [c] for every sampled second and
    for the second after it, and every sample is after the epoch, then in
    every frame UTC is the system time and TAI is the system time plus [c],
    whatever jumps the system clock makes, and [leap], [slew] and
    [slew_tick] stay clear. *)
Theorem constant_offset_run
    (argv1 tz : option string) (answers : list poll) (c : Z) :
  Forall (fun p => 0 <= adjtimex_ret p ->
            0 < tv_sec (read_time (timex p))
            /\ offset_value (tv_sec (read_time (timex p))) = c
            /\ offset_value (tv_sec (read_time (timex p)) + 1) = c) answers ->
  (leap (final (main argv1 tz answers)) = false
   /\ slew (final (main argv1 tz answers)) = false
   /\ slew_tick (final (main argv1 tz answers)) = 0)
  /\ Forall (fun f =>
               tv_utc f = tv_system f
               /\ tv_tai f = mk_timeval (tv_sec (tv_system f) + c)
                               (tv_usec (tv_system f)))
       (frames (main argv1 tz answers)).
Proof.
  intros Hans. unfold main.
  assert (Hstep : forall p l,
    0 < tv_sec (read_time (timex p))
    /\ offset_value (tv_sec (read_time (timex p))) = c
    /\ offset_value (tv_sec (read_time (timex p)) + 1) = c ->
    leap l = false /\ slew l = false /\ slew_tick l = 0
    /\ ((tai_offset l = 0 /\ last_tai_offset l = 0
         /\ tv_sec (last_tv_system l) = 0)
        \/ (tai_offset l = c /\ last_tai_offset l = c)) ->
    (leap (fst (clock_step (timex p) l)) = false
     /\ slew (fst (clock_step (timex p) l)) = false
     /\ slew_tick (fst (clock_step (timex p) l)) = 0
     /\ ((tai_offset (fst (clock_step (timex p) l)) = 0
          /\ last_tai_offset (fst (clock_step (timex p) l)) = 0
          /\ tv_sec (last_tv_system (fst (clock_step (timex p) l))) = 0)
         \/ (tai_offset (fst (clock_step (timex p) l)) = c
             /\ last_tai_offset (fst (clock_step (timex p) l)) = c)))
    /\ (tv_utc (snd (clock_step (timex p) l))
        = tv_system (snd (clock_step (timex p) l))
        /\ tv_tai (snd (clock_step (timex p) l))
           = mk_timeval (tv_sec (tv_system (snd (clock_step (timex p) l))) + c)
               (tv_usec (tv_system (snd (clock_step (timex p) l)))))).
  { intros p l (Hsec & Hc & Hc1) (Hleap & Hslew & Hst & Hoff).
    destruct (clock_step_constant (timex p) l c Hsec Hc Hc1 Hleap Hslew Hoff)
      as ((K1 & K2 & K3 & K4 & K5) & K6 & K7).
    rewrite K3. auto 10. }
  destruct (loop_invariant
              (fun p => 0 < tv_sec (read_time (timex p))
                        /\ offset_value (tv_sec (read_time (timex p))) = c
                        /\ offset_value (tv_sec (read_time (timex p)) + 1) = c)
              (fun l => leap l = false /\ slew l = false /\ slew_tick l = 0
                        /\ ((tai_offset l = 0 /\ last_tai_offset l = 0
                             /\ tv_sec (last_tv_system l) = 0)
                            \/ (tai_offset l = c /\ last_tai_offset l = c)))
              (fun f => tv_utc f = tv_system f
                        /\ tv_tai f = mk_timeval (tv_sec (tv_system f) + c)
                                        (tv_usec (tv_system f)))
              Hstep (debug_mode argv1) answers init_locals []
              (if negb (debug_mode argv1)
               then snd (emit Initscr (mk_world tz []))
               else mk_world tz []) Hans) as [(I1 & I2 & I3 & _) I4].
  - cbn. auto 10.
  - constructor.
  - auto.
Qed.

End ConstantOffset.

Section Environment.
Context {libc : Libc}.

Lemma iteration_forgets_tz (debug : bool) (p : poll) (l : locals)
    (scr : list event) (tz1 tz2 : option string) :
  0 <= adjtimex_ret p ->
  recompute_due (read_time (timex p))
    (detect_step (diff_tv (read_time (timex p)) (last_tv_system l)) l) = true ->
  iteration debug p l (mk_world tz1 scr) = iteration debug p l (mk_world tz2 scr).
Proof.
  intros Hret Hdue.
  assert (Hlt : (adjtimex_ret p <? 0) = false) by (apply Z.ltb_ge; exact Hret).
  unfold iteration.
  unfold bind, when, emit, ret.
  destruct debug; cbn [negb TZ screen fst snd]; rewrite Hlt;
    rewrite !recompute_recomputed; rewrite Hdue; reflexivity.
Qed.

Lemma loop_forgets_tz (debug : bool) (answers : list poll) (l : locals)
    (fs : list frame) (scr : list event) (tz1 tz2 : option string) :
  (forall p, List.hd_error answers = Some p ->
     recompute_due (read_time (timex p))
       (detect_step (diff_tv (read_time (timex p)) (last_tv_system l)) l) = true) ->
  status (loop debug answers l fs (mk_world tz1 scr))
  = status (loop debug answers l fs (mk_world tz2 scr))
  /\ final (loop debug answers l fs (mk_world tz1 scr))
     = final (loop debug answers l fs (mk_world tz2 scr))
  /\ frames (loop debug answers l fs (mk_world tz1 scr))
     = frames (loop debug answers l fs (mk_world tz2 scr))
  /\ screen (after (loop debug answers l fs (mk_world tz1 scr)))
     = screen (after (loop debug answers l fs (mk_world tz2 scr))).
Proof.
  intros Hhd. destruct answers as [|p rest]; [cbn; auto|].
  specialize (Hhd p eq_refl). cbn [loop].
  destruct ((ch p =? ERR) || (ch p =? KEY_RESIZE)).
  - destruct (Z_lt_dec (adjtimex_ret p) 0) as [Hret|Hret].
    + rewrite !(iteration_fails debug p l _ Hret). cbn. auto.
    + cbn [emit snd TZ screen].
      rewrite (iteration_forgets_tz debug p l (scr ++ [Getch]) tz1 tz2
                 ltac:(lia) Hhd).
      auto.
  - destruct debug; cbn; auto.
Qed.

(** X10: the TZ variable the program is started with has no effect.
    Provided the first sample is not in second 0 of the epoch, a run started
    with any value of TZ has the same exit status, the same variables, the
    same frames and the same calls to the terminal as the run started
    without TZ: [get_tai_offset] unsets the variable before anything is
    printed. *)
Theorem environment_tz_is_ignored
    (argv1 tz : option string) (answers : list poll) :
  (forall p, List.hd_error answers = Some p ->
             tv_sec (read_time (timex p)) <> 0) ->
  status (main argv1 tz answers) = status (main argv1 None answers)
  /\ final (main argv1 tz answers) = final (main argv1 None answers)
  /\ frames (main argv1 tz answers) = frames (main argv1 None answers)
  /\ screen (after (main argv1 tz answers))
     = screen (after (main argv1 None answers)).
Proof.
  intros Hhd. unfold main.
  assert (Hdue : forall p, List.hd_error answers = Some p ->
     recompute_due (read_time (timex p))
       (detect_step (diff_tv (read_time (timex p)) (last_tv_system init_locals))
          init_locals) = true).
  { intros p Hp. specialize (Hhd p Hp). unfold recompute_due.
    destruct (detect_step_keeps
                (diff_tv (read_time (timex p)) (last_tv_system init_locals))
                init_locals) as (_ & _ & _ & _ & ->).
    cbn [last_tv_system init_locals tv_sec].
    apply orb_true_iff. right. apply negb_true_iff, Z.eqb_neq. lia. }
  destruct (negb (debug_mode argv1)); cbn [emit snd TZ screen];
    apply loop_forgets_tz; exact Hdue.
Qed.

End Environment.

(** ** The box on the terminal *)

Lemma print_border_cells (line col : Z) (c : mvaddch_call) :
  In c (print_border line col) ->
  line <= cell_y c <= line + CLOCK_LINES /\ col <= cell_x c <= col + CLOCK_COLS.
Proof.
  unfold print_border. rewrite !in_app_iff, !in_for_from_1. cbn [In].
  unfold CLOCK_COLS, CLOCK_LINES.
  intros [(i & Hi & [H|[H|[]]]) | [(i & Hi & [H|[H|[]]]) | [H|[H|[H|[H|[]]]]]]];
    subst c; cbn [cell_y cell_x]; lia.
Qed.

Lemma print_border_corners (line col : Z) :
  In (mk_mvaddch line col ACS_ULCORNER) (print_border line col)
  /\ In (mk_mvaddch (line + CLOCK_LINES) (col + CLOCK_COLS) ACS_LRCORNER)
        (print_border line col).
Proof.
  unfold print_border. rewrite !in_app_iff. cbn [In]. split.
  - right. right. left. reflexivity.
  - right. right. right. right. right. left. reflexivity.
Qed.

Lemma centre_margin (n k : Z) :
  0 <= k ->
  (0 <= (n - k) ÷ 2 /\ (n - k) ÷ 2 + k < n <-> k < n)
  /\ (k < n -> 0 <= (n - k) ÷ 2 - (n - 1 - ((n - k) ÷ 2 + k)) <= 1).
Proof.
  intros Hk.
  pose proof (quot_bounds (n - k) 2 ltac:(lia)) as Hb.
  assert (Hpos : k < n -> 0 <= (n - k) ÷ 2 /\ 2 * ((n - k) ÷ 2) <= n - k).
  { intros H. split; [apply Z.quot_pos; lia|].
    rewrite Z.quot_div_nonneg by lia. apply Z.mul_div_le. lia. }
  split; [split|].
  - intros [H0 H1]. lia.
  - intros H. destruct (Hpos H). lia.
  - intros H. destruct (Hpos H). lia.
Qed.

Section Box.
Context {libc : Libc}.

(** X5: in full-screen mode every iteration, also one whose query of the
    kernel fails, first erases the screen and draws the border at
    ([(LINES - 7) / 2], [(COLS - 35) / 2]).  All cells of the border lie on
    the terminal if and only if the terminal has more than 7 lines and more
    than 35 columns; then the margin above (left of) the box exceeds the
    margin below (right of) it by at most one cell and is never smaller;
    and every line of text the iteration prints starts three columns right
    of the box's left edge, on a row strictly between its top and bottom
    rows. *)
Theorem box_inside_terminal (p : poll) (l : locals) (w : world) :
  exists line col rest,
    screen (snd (iteration false p l w))
    = screen w ++ Erase :: PrintBorder line col :: rest
    /\ ((forall c, In c (print_border line col) ->
           0 <= cell_y c < LINES p /\ 0 <= cell_x c < COLS p)
        <-> CLOCK_LINES < LINES p /\ CLOCK_COLS < COLS p)
    /\ (CLOCK_LINES < LINES p ->
        0 <= line - (LINES p - 1 - (line + CLOCK_LINES)) <= 1)
    /\ (CLOCK_COLS < COLS p ->
        0 <= col - (COLS p - 1 - (col + CLOCK_COLS)) <= 1)
    /\ (forall y x label t d, In (Mvprintw y x label t d) rest ->
          line < y < line + CLOCK_LINES /\ x = col + 3).
Proof.
  exists ((LINES p - CLOCK_LINES) ÷ 2), ((COLS p - CLOCK_COLS) ÷ 2).
  destruct (centre_margin (LINES p) CLOCK_LINES ltac:(unfold CLOCK_LINES; lia))
    as [Hl1 Hl2].
  destruct (centre_margin (COLS p) CLOCK_COLS ltac:(unfold CLOCK_COLS; lia))
    as [Hc1 Hc2].
  assert (Hfit :
    (forall c, In c (print_border ((LINES p - CLOCK_LINES) ÷ 2)
                                  ((COLS p - CLOCK_COLS) ÷ 2)) ->
       0 <= cell_y c < LINES p /\ 0 <= cell_x c < COLS p)
    <-> CLOCK_LINES < LINES p /\ CLOCK_COLS < COLS p).
  { split.
    - intros H.
      destruct (print_border_corners ((LINES p - CLOCK_LINES) ÷ 2)
                                     ((COLS p - CLOCK_COLS) ÷ 2)) as [Hul Hlr].
      apply H in Hul. apply H in Hlr. cbn [cell_y cell_x] in Hul, Hlr.
      split; [apply Hl1 | apply Hc1]; lia.
    - intros [HL HC] c Hin. apply print_border_cells in Hin.
      apply Hl1 in HL. apply Hc1 in HC. lia. }
  destruct (Z_lt_dec (adjtimex_ret p) 0) as [Hret|Hret].
  - exists [Adjtimex]. rewrite (iteration_fails false p l w Hret).
    cbn [snd screen].
    split; [reflexivity|]. split; [exact Hfit|].
    split; [exact Hl2|]. split; [exact Hc2|].
    intros y x label t d [H|[]]. discriminate H.
  - destruct (iteration_draws_screen p l w ltac:(lia))
      as (t1 & d1 & t2 & d2 & t3 & d3 & t4 & d4 & H).
    eexists. rewrite H. split; [reflexivity|]. split; [exact Hfit|].
    split; [exact Hl2|]. split; [exact Hc2|].
    intros y x label t d Hin. cbn [In] in Hin.
    unfold CLOCK_LINES, CLOCK_COLS in Hin |- *.
    repeat (destruct Hin as [Hin|Hin];
            [first [discriminate Hin | injection Hin as <- <- _ _ _; lia]|]).
    destruct Hin.
Qed.

End Box.

(** ** The screen and the end of a run *)

Section Outcome.
Context {libc : Libc}.

Lemma loop_screen (debug : bool) (answers : list poll) :
  forall (l : locals) (fs : list frame) (w : world),
  exists body,
    screen (after (loop debug answers l fs w))
    = screen w ++ body
      ++ match status (loop debug answers l fs w) with
         | Some 0 => if debug then [] else [Endwin]
         | _ => []
         end
    /\ Forall (loop_event debug) body.
Proof.
  induction answers as [|p rest IH]; intros l fs w.
  - exists []. cbn. rewrite app_nil_r. auto.
  - cbn [loop].
    destruct ((ch p =? ERR) || (ch p =? KEY_RESIZE)).
    + destruct (Z_lt_dec (adjtimex_ret p) 0) as [Hret|Hret].
      * rewrite (iteration_fails debug p l _ Hret). cbn [status after screen emit snd].
        exists (Getch :: (if debug then []
                          else [Erase; PrintBorder ((LINES p - CLOCK_LINES) ÷ 2)
                                                   ((COLS p - CLOCK_COLS) ÷ 2)])
                         ++ [Adjtimex]).
        rewrite app_nil_r. rewrite <- (app_assoc (screen w) [Getch]). cbn [app].
        split; [reflexivity|].
        destruct debug; repeat constructor.
      * destruct (iteration_events debug p l (snd (emit Getch w)))
          as (evs & Hscr & Hall).
        destruct (iteration_returns debug p l (snd (emit Getch w)) ltac:(lia))
          as (w' & Hit & _).
        rewrite Hit in Hscr |- *. cbn [snd] in Hscr.
        destruct (IH (fst (clock_step (timex p) l))
                     (fs ++ [snd (clock_step (timex p) l)]) w')
          as (body & Hb & Hfb).
        exists (Getch :: evs ++ body).
        rewrite Hb, Hscr. cbn [emit snd screen].
        cbn [app]. rewrite <- !app_assoc. cbn [app].
        split; [reflexivity|].
        constructor; [exact I|]. apply Forall_app. split; assumption.
    + exists [Getch]. cbn [status after].
      destruct debug; cbn; (split; [rewrite <- ?app_assoc; reflexivity|]);
        repeat constructor.
Qed.

(** X11: order of the calls to the terminal.  In full-screen mode the
    screen is opened exactly once, before anything else; [endwin] is called
    at most once, as the very last call, and exactly when main returns 0;
    in between there are only the calls of the loop, none of them a
    [printf].  In debug mode the screen is neither opened nor closed and
    nothing is drawn with curses: apart from [getch], [adjtimex] and
    [usleep] there are only [printf] calls. *)
Theorem screen_discipline (argv1 tz : option string) (answers : list poll) :
  exists body,
    screen (after (main argv1 tz answers))
    = (if debug_mode argv1 then [] else [Initscr])
      ++ body
      ++ match status (main argv1 tz answers) with
         | Some 0 => if debug_mode argv1 then [] else [Endwin]
         | _ => []
         end
    /\ Forall (loop_event (debug_mode argv1)) body.
Proof.
  unfold main.
  destruct (loop_screen (debug_mode argv1) answers init_locals []
              (if negb (debug_mode argv1)
               then snd (emit Initscr (mk_world tz []))
               else mk_world tz [])) as (body & Hb & Hall).
  exists body. split; [|exact Hall].
  rewrite Hb. destruct (debug_mode argv1); reflexivity.
Qed.

Lemma loop_outcome (debug : bool) (answers : list poll) :
  forall (l : locals) (fs : list frame) (w : world),
  exists before rest,
    answers = before ++ rest
    /\ Forall keeps_running before
    /\ final (loop debug answers l fs w)
       = fst (clock_run (List.map timex before) l)
    /\ frames (loop debug answers l fs w)
       = fs ++ snd (clock_run (List.map timex before) l)
    /\ match rest with
       | [] => status (loop debug answers l fs w) = None
       | p :: _ =>
           if (ch p =? ERR) || (ch p =? KEY_RESIZE)
           then adjtimex_ret p < 0 /\ status (loop debug answers l fs w) = Some 1
           else status (loop debug answers l fs w) = Some 0
       end.
Proof.
  induction answers as [|p rest IH]; intros l fs w.
  - exists [], []. cbn. rewrite app_nil_r. auto 10.
  - cbn [loop].
    destruct ((ch p =? ERR) || (ch p =? KEY_RESIZE)) eqn:Hch.
    + destruct (Z_lt_dec (adjtimex_ret p) 0) as [Hret|Hret].
      * exists [], (p :: rest).
        rewrite (iteration_fails debug p l _ Hret). cbn [status final frames].
        rewrite Hch. cbn. rewrite app_nil_r. auto 10.
      * destruct (iteration_returns debug p l (snd (emit Getch w)) ltac:(lia))
          as (w' & Hit & _).
        rewrite Hit.
        destruct (IH (fst (clock_step (timex p) l))
                     (fs ++ [snd (clock_step (timex p) l)]) w')
          as (before & rest' & Heq & Hrun & Hfin & Hfr & Hst).
        exists (p :: before), rest'.
        split; [rewrite Heq; reflexivity|].
        split.
        { constructor; [|exact Hrun]. split; [|lia].
          apply orb_true_iff in Hch. rewrite !Z.eqb_eq in Hch. exact Hch. }
        cbn [List.map].
        rewrite clock_run_cons_fst, clock_run_cons_snd, Hfin, Hfr, <- app_assoc.
        auto 10.
    + exists [], (p :: rest). rewrite Hch. cbn. rewrite app_nil_r. auto 10.
Qed.

(** X12: how a run ends.  The answers split into a longest prefix on
    which the loop keeps running and a rest.  The variables and the frames
    at the end are those of the clock engine run over the prefix: one frame
    per answer of the prefix, none for the answer that ends the run, and
    the answers after it have no influence on them.  With no rest the loop is still
    running; if the first answer of the rest is a key other than a resize
    event main returns 0; otherwise the query of the kernel failed and main
    returns 1. *)
Theorem run_outcome (argv1 tz : option string) (answers : list poll) :
  exists before rest,
    answers = before ++ rest
    /\ Forall keeps_running before
    /\ final (main argv1 tz answers)
       = fst (clock_run (List.map timex before) init_locals)
    /\ frames (main argv1 tz answers)
       = snd (clock_run (List.map timex before) init_locals)
    /\ match rest with
       | [] => status (main argv1 tz answers) = None
       | p :: _ =>
           if (ch p =? ERR) || (ch p =? KEY_RESIZE)
           then adjtimex_ret p < 0 /\ status (main argv1 tz answers) = Some 1
           else status (main argv1 tz answers) = Some 0
       end.
Proof.
  unfold main.
  destruct (loop_outcome (debug_mode argv1) answers init_locals []
              (if negb (debug_mode argv1)
               then snd (emit Initscr (mk_world tz []))
               else mk_world tz []))
    as (before & rest & H1 & H2 & H3 & H4 & H5).
  exists before, rest. auto 10.
Qed.

End Outcome.

(** ** A leap second inserted by a step of the clock *)

Section SteppedLeap.
Context {libc : Libc}.

Lemma iteration_utc_line (debug : bool) (p : poll) (l : locals) (w : world) :
  0 <= adjtimex_ret p ->
  let l' := fst (clock_step (timex p) l) in
  let f := snd (clock_step (timex p) l) in
  let tz' := if recompute_due (read_time (timex p))
                  (detect_step (diff_tv (read_time (timex p)) (last_tv_system l)) l)
             then None else TZ w in
  let t0 := gmtime tz' (tv_sec (tv_utc f)) in
  let t := if leap l' && (tm_sec t0 =? 59)
           then mk_tm (tm_sec t0 + 1) (tm_min t0) (tm_hour t0)
                      (tm_mday t0) (tm_mon t0) (tm_year t0)
           else t0 in
  In (if debug
      then PrintfTime (Some "UTC"%string) t (tv_usec (tv_utc f) ÷ 100000)
      else Mvprintw ((LINES p - CLOCK_LINES) ÷ 2 + 3) ((COLS p - CLOCK_COLS) ÷ 2 + 3)
             (Some "UTC"%string) t (tv_usec (tv_utc f) ÷ 100000))
     (screen (snd (iteration debug p l w))).
Proof.
  intros Hret.
  assert (Hlt : (adjtimex_ret p <? 0) = false) by (apply Z.ltb_ge; exact Hret).
  unfold iteration, clock_step.
  destruct (assemble (timex_tick (timex p)) (read_time (timex p))
              (recomputed (read_time (timex p))
                 (detect_step (diff_tv (read_time (timex p)) (last_tv_system l)) l)))
    as [l3 f] eqn:Hasm.
  destruct w as [tz scr].
  unfold bind, when, emit, ret, print_time, call_gmtime, call_localtime.
  destruct debug; cbn [negb TZ screen fst snd]; rewrite Hlt;
    rewrite recompute_recomputed; cbn [TZ screen]; rewrite Hasm;
    cbv [bind when emit ret print_time call_gmtime call_localtime];
    cbn [negb TZ screen snd fst];
    repeat rewrite <- app_assoc; cbn [app];
    rewrite in_app_iff; right; cbn [In]; tauto.
Qed.

(** X16: a leap second the kernel inserts by stepping the clock back is
    shown as second 60.  If the sample is between 0.8 s and 1 s behind the
    previous one, the offset of the second after the sampled second is
    above the non-zero offset in use, the sampled second is not the first
    of a day and the library gives it second 59, then the iteration sets
    [leap], clears [step] and [slew], adopts the new offset, shows the
    system time as UTC and the system time plus the new offset as TAI, and
    the UTC line it prints has 60 in its seconds field. *)
Theorem stepped_leap_shows_second_60
    (debug : bool) (p : poll) (l : locals) (w : world) :
  0 <= adjtimex_ret p ->
  classify (diff_tv (read_time (timex p)) (last_tv_system l)) = BACKWARD_STEP ->
  last_tai_offset l <> 0 ->
  last_tai_offset l < offset_value (tv_sec (read_time (timex p)) + 1) ->
  Z.rem (tv_sec (read_time (timex p))) 86400 <> 0 ->
  tm_sec (gmtime None (tv_sec (read_time (timex p)))) = 59 ->
  exists l' f w' t,
    iteration debug p l w = (Val (l', f), w')
    /\ leap l' = true /\ step l' = false /\ slew l' = false
    /\ tai_offset l' = offset_value (tv_sec (read_time (timex p)) + 1)
    /\ tv_utc f = read_time (timex p)
    /\ tv_tai f = mk_timeval (tv_sec (read_time (timex p)) + tai_offset l')
                    (tv_usec (read_time (timex p)))
    /\ tm_sec t = 60
    /\ In (if debug
           then PrintfTime (Some "UTC"%string) t
                  (tv_usec (read_time (timex p)) ÷ 100000)
           else Mvprintw ((LINES p - CLOCK_LINES) ÷ 2 + 3)
                  ((COLS p - CLOCK_COLS) ÷ 2 + 3)
                  (Some "UTC"%string) t (tv_usec (read_time (timex p)) ÷ 100000))
          (screen w').
Proof.
  intros Hret Hcl Hlast Hnew Hrem H59.
  destruct (iteration_returns debug p l w Hret) as (w' & Hit & _).
  assert (Hdue : recompute_due (read_time (timex p))
                   (detect_step (diff_tv (read_time (timex p)) (last_tv_system l)) l)
                 = true).
  { unfold detect_step. rewrite Hcl. reflexivity. }
  assert (Hleap : leap (fst (clock_step (timex p) l)) = true).
  { rewrite clock_step_leap. unfold recomputed. rewrite Hdue.
    unfold detect_step. rewrite Hcl. cbn [leap step last_tai_offset Z.b2z].
    apply andb_true_iff. split.
    - apply negb_true_iff, Z.eqb_neq. exact Hlast.
    - apply Z.ltb_lt. exact Hnew. }
  assert (Hoff : tai_offset (fst (clock_step (timex p) l))
                 = offset_value (tv_sec (read_time (timex p)) + 1)).
  { rewrite clock_step_tai_offset. unfold recomputed. rewrite Hdue.
    unfold detect_step. rewrite Hcl. reflexivity. }
  destruct (clock_step_idle (timex p) l) as (H1 & _ & _ & H4 & H5).
  { unfold detect_step. rewrite Hcl. reflexivity. }
  { right. exact Hrem. }
  pose proof (iteration_utc_line debug p l w Hret) as Hline.
  cbv zeta in Hline.
  rewrite Hit, Hdue, Hleap, H4, H59 in Hline.
  eexists _, _, w', _.
  split; [exact Hit|].
  split; [exact Hleap|]. split; [apply clock_step_step|]. split; [exact H1|].
  split; [exact Hoff|]. split; [exact H4|]. split; [exact H5|].
  split; [|exact Hline].
  reflexivity.
Qed.

End SteppedLeap.

(** ** Instances on the reference library *)

Lemma read_time_normalizes_witness :
  let tx := mk_timex (mk_timeval 1500000000 123456789) STA_NANO 10000 in
  tv_sec (read_time tx) = tv_sec (timex_time tx)
  /\ 0 <= tv_usec (read_time tx) < 1000000
  /\ (Z.land (timex_status tx) STA_NANO = 0 ->
        tv_usec (read_time tx) = tv_usec (timex_time tx))
  /\ (Z.land (timex_status tx) STA_NANO <> 0 ->
        1000 * tv_usec (read_time tx) <= tv_usec (timex_time tx)
        < 1000 * tv_usec (read_time tx) + 1000).
Proof.
  apply (read_time_normalizes
           (mk_timex (mk_timeval 1500000000 123456789) STA_NANO 10000)).
  - vm_compute. discriminate.
  - intros _. vm_compute. split; [discriminate | reflexivity].
Defined.

Lemma print_time_line_witness :
  exists t dsecs,
    print_time (libc := Sample.libc2030) false 10 25 (Some "UTC"%string)
      (mk_timeval (Sample.T2030 - 1) 950000) false true (mk_world None [])
    = (Val tt, mk_world None [Mvprintw 10 25 (Some "UTC"%string) t dsecs])
    /\ dsecs = 9 /\ tm_sec t = 60 /\ tm_min t = 59 /\ tm_hour t = 23.
Proof.
  destruct (print_time_line (libc := Sample.libc2030) false 10 25
              (Some "UTC"%string) (mk_timeval (Sample.T2030 - 1) 950000)
              false true (mk_world None []))
    as (t & dsecs & H & _ & Hd & Hs & Hm & Hh & _).
  - vm_compute. split; [discriminate | reflexivity].
  - exists t, dsecs. split; [exact H|].
    split; [cbn [tv_usec] in Hd; lia|].
    split; [exact Hs|]. split; [exact Hm | exact Hh].
Defined.

Lemma anomaly_forces_recompute_witness :
  exists l' f w',
    iteration (libc := Sample.libc2017) false
      (Sample.answer 1500000100 0 10000) Sample.slewing
      (mk_world (Some "Europe/Prague"%string) [])
    = (Val (l', f), w')
    /\ TZ w' = None /\ step l' = false /\ last_tai_offset l' = tai_offset l'.
Proof.
  destruct (anomaly_forces_recompute (libc := Sample.libc2017) false
              (Sample.answer 1500000100 0 10000) Sample.slewing
              (mk_world (Some "Europe/Prague"%string) []))
    as (l' & f & w' & H1 & H2 & H3 & H4 & _).
  - vm_compute. discriminate.
  - vm_compute. split; [discriminate | reflexivity].
  - vm_compute. split; [discriminate | reflexivity].
  - vm_compute. discriminate.
  - exists l', f, w'. auto.
Defined.

Lemma slew_engages_only_at_second_0_witness :
  exists l' f w',
    iteration (libc := Sample.libc2030) false
      (Sample.answer Sample.T2030 0 9999) Sample.before2030 (mk_world None [])
    = (Val (l', f), w')
    /\ (slew l' = true ->
          (slew Sample.before2030 = true
           /\ classify (diff_tv (read_time (timex (Sample.answer Sample.T2030 0 9999)))
                          (last_tv_system Sample.before2030)) = NORMAL)
          \/ (leap l' = true
              /\ Z.rem (tv_sec (read_time (timex (Sample.answer Sample.T2030 0 9999))))
                   86400 = 0)).
Proof.
  apply (slew_engages_only_at_second_0 (libc := Sample.libc2030) false
           (Sample.answer Sample.T2030 0 9999) Sample.before2030
           (mk_world None [])).
  vm_compute. discriminate.
Defined.

Lemma discontinuity_abandons_slew_witness :
  exists l' f w',
    iteration (libc := Sample.libc2017) false
      (Sample.answer 1500000100 0 10000) Sample.slewing (mk_world None [])
    = (Val (l', f), w')
    /\ step l' = false /\ slew l' = false /\ tv_utc f = tv_system f
    /\ tick l' = 10000 /\ slew_tick l' = 9999.
Proof.
  destruct (discontinuity_abandons_slew (libc := Sample.libc2017) false
              (Sample.answer 1500000100 0 10000) Sample.slewing
              (mk_world None []))
    as (l' & f & w' & H1 & H2 & H3 & H4).
  - vm_compute. discriminate.
  - vm_compute. reflexivity.
  - exists l', f, w'.
    destruct H4 as (K1 & K2 & K3 & K4).
    + right. vm_compute. discriminate.
    + split; [exact H1|]. split; [exact H2|]. split; [exact K1|].
      split; [exact K2|]. split; [exact K3 | exact K4].
Defined.

Lemma first_iteration_witness :
  exists l' f w',
    iteration (libc := Sample.libc2017) false
      (Sample.answer Sample.T2017 250000 10000) init_locals
      (mk_world (Some "Europe/Prague"%string) [])
    = (Val (l', f), w')
    /\ tv_utc f = mk_timeval Sample.T2017 250000
    /\ leap l' = false /\ slew l' = false /\ tick l' = 10000 /\ TZ w' = None.
Proof.
  destruct (first_iteration (libc := Sample.libc2017) false
              (Sample.answer Sample.T2017 250000 10000)
              (mk_world (Some "Europe/Prague"%string) []))
    as (l' & f & w' & H1 & _ & H3 & _ & _ & _ & H7 & _ & H9 & H10 & _ & _ & H13).
  - vm_compute. discriminate.
  - vm_compute. reflexivity.
  - vm_compute. discriminate.
  - exists l', f, w'.
    split; [exact H1|]. split; [exact H3|]. split; [exact H7|].
    split; [exact H9|]. split; [exact H10 | exact H13].
Defined.

Lemma utc_lags_at_most_a_second_witness :
  let answers := [Sample.answer (Sample.T2030 - 1) 950000 10000;
                  Sample.answer Sample.T2030 0 9000;
                  Sample.answer Sample.T2030 450000 9000;
                  Sample.answer Sample.T2030 900000 9000] in
  let o := main (libc := Sample.libc2030) None None answers in
  (0 <= slew_tick (final o)
   /\ Forall (fun f =>
                micros (tv_system f) - 1000000 <= micros (tv_utc f)
                  <= micros (tv_system f)
                /\ 0 <= tv_usec (tv_utc f) < 1000000)
        (frames o))
  /\ slew (final o) = true
  /\ List.map (fun f => micros (tv_system f) - micros (tv_utc f)) (frames o)
     = [0; 1000000; 950000; 900000].
Proof.
  cbv zeta. split.
  - apply (utc_lags_at_most_a_second (libc := Sample.libc2030) None None
             [Sample.answer (Sample.T2030 - 1) 950000 10000;
              Sample.answer Sample.T2030 0 9000;
              Sample.answer Sample.T2030 450000 9000;
              Sample.answer Sample.T2030 900000 9000]).
    repeat (apply Forall_cons;
            [intros _; vm_compute; repeat split;
             first [reflexivity | discriminate]|]).
    apply Forall_nil.
  - split; vm_compute; reflexivity.
Defined.

Lemma constant_offset_run_witness :
  let answers := [Sample.answer 1500000000 0 10000;
                  Sample.answer 1500000000 50000 10000;
                  Sample.answer 1500003600 0 10000] in
  (leap (final (main (libc := Sample.libc2017) None None answers)) = false
   /\ slew (final (main (libc := Sample.libc2017) None None answers)) = false
   /\ slew_tick (final (main (libc := Sample.libc2017) None None answers)) = 0)
  /\ Forall (fun f =>
               tv_utc f = tv_system f
               /\ tv_tai f = mk_timeval (tv_sec (tv_system f) + 37)
                               (tv_usec (tv_system f)))
       (frames (main (libc := Sample.libc2017) None None answers)).
Proof.
  apply (constant_offset_run (libc := Sample.libc2017) None None
           [Sample.answer 1500000000 0 10000;
            Sample.answer 1500000000 50000 10000;
            Sample.answer 1500003600 0 10000] 37).
  repeat (apply Forall_cons; [intros _; vm_compute; repeat split; reflexivity|]).
  apply Forall_nil.
Defined.

Lemma environment_tz_is_ignored_witness :
  let answers := [Sample.answer Sample.T2017 0 10000;
                  Sample.answer Sample.T2017 50000 10000] in
  let o1 := main (libc := Sample.libc2017) None (Some "Europe/Prague"%string) answers in
  let o2 := main (libc := Sample.libc2017) None None answers in
  status o1 = status o2 /\ final o1 = final o2 /\ frames o1 = frames o2
  /\ screen (after o1) = screen (after o2).
Proof.
  apply (environment_tz_is_ignored (libc := Sample.libc2017) None
           (Some "Europe/Prague"%string)
           [Sample.answer Sample.T2017 0 10000;
            Sample.answer Sample.T2017 50000 10000]).
  intros p H. injection H as <-. vm_compute. discriminate.
Defined.

Lemma stepped_leap_shows_second_60_witness :
  exists l' f w' t,
    iteration (libc := Sample.libc2030) false
      (Sample.answer (Sample.T2030 - 1) 30000 10000) Sample.before2030
      (mk_world None [])
    = (Val (l', f), w')
    /\ leap l' = true /\ slew l' = false /\ tai_offset l' = 38
    /\ tv_utc f = mk_timeval (Sample.T2030 - 1) 30000
    /\ tm_sec t = 60
    /\ In (Mvprintw 11 25 (Some "UTC"%string) t 0) (screen w').
Proof.
  destruct (stepped_leap_shows_second_60 (libc := Sample.libc2030) false
              (Sample.answer (Sample.T2030 - 1) 30000 10000)
              Sample.before2030 (mk_world None []))
    as (l' & f & w' & t & H1 & H2 & _ & H4 & H5 & H6 & _ & H8 & H9).
  - vm_compute. discriminate.
  - vm_compute. reflexivity.
  - vm_compute. discriminate.
  - vm_compute. reflexivity.
  - vm_compute. discriminate.
  - vm_compute. reflexivity.
  - exists l', f, w', t.
    split; [exact H1|]. split; [exact H2|]. split; [exact H4|].
    split; [exact H5|]. split; [exact H6|]. split; [exact H8 | exact H9].
Defined.
